(* ===================================================================== *)
(*  Server.js - the Socket.IO relay (lines 146-186): presence registry,  *)
(*  chat relay and call signaling, embedded as functions on an explicit  *)
(*  server state.                                                         *)
(*                                                                        *)
(*  Modelling conventions                                                 *)
(*  - `onlineUsers` is a plain JS object used as a map: a finite map of   *)
(*    its own properties (string keys, socket ids as values) over the     *)
(*    members it inherits from Object.prototype. A read of a name with    *)
(*    no own property finds the inherited member; an assignment to        *)
(*    `__proto__` with a string stores nothing.                           *)
(*  - A computed member access `onlineUsers[v]` converts `v` to a         *)
(*    property key first (`property_key`); for an object whose own        *)
(*    `toString` is not callable the conversion throws a TypeError.       *)
(*  - `if (targetSocket)` is the JS truthiness test (`truthy`).           *)
(*  - `await new Message(..).save()` suspends the handler: the save is    *)
(*    issued at once, the rest of the handler runs when the environment   *)
(*    settles the save (`SaveSettled`).                                   *)
(*  - The HTTP routes for accounts, contacts, history and the chat list   *)
(*    (lines 40-137) are functions on the User and Message collections;   *)
(*    bcrypt and the ObjectId cast are parameters.                        *)
(* ===================================================================== *)

From stdpp Require Import base strings list gmap fin_maps sorting.

Local Open Scope string_scope.
Local Open Scope list_scope.
Local Open Scope nat_scope.
Set Warnings "-register-all".

(* --------------------------------------------------------------------- *)
(*  Values                                                                *)
(* --------------------------------------------------------------------- *)

(** The JS values a client can put into a field of an event payload or
    into the handshake query: nothing (the field is absent), a string, or
    an object literal (an SDP offer, an ICE candidate, ...). *)
Inductive jsval : Type :=
| Undefined
| Str (s : string)
| Obj (fields : list (string * jsval)).

(** ToPropertyKey on the values above, as done by `onlineUsers[v]`. An
    object converts through its `toString`: the one it inherits gives
    "[object Object]"; a field of its own named toString is data, not
    callable, and then the conversion throws a TypeError (None). *)
Definition property_key (v : jsval) : option string :=
  match v with
  | Undefined => Some "undefined"
  | Str s => Some s
  | Obj fields =>
      if existsb (λ f, String.eqb f.1 "toString") fields then None
      else Some "[object Object]"
  end.

(** The members every plain object inherits from Object.prototype. *)
Definition object_prototype_names : list string :=
  ["constructor"; "__defineGetter__"; "__defineSetter__"; "hasOwnProperty";
   "__lookupGetter__"; "__lookupSetter__"; "isPrototypeOf";
   "propertyIsEnumerable"; "toString"; "valueOf"; "__proto__";
   "toLocaleString"].

Definition inherited (k : string) : bool :=
  existsb (String.eqb k) object_prototype_names.

(** The text of an ObjectId: 24 hexadecimal digits; the cast reads the
    digits without regard to case, an ObjectId is written in lower case. *)
Definition lower_hex (c : Ascii.ascii) : Ascii.ascii :=
  let n := Ascii.nat_of_ascii c in
  if (65 <=? n) && (n <=? 70) then Ascii.ascii_of_nat (n + 32) else c.

Fixpoint oid_canon (s : string) : string :=
  match s with
  | EmptyString => EmptyString
  | String c s' => String (lower_hex c) (oid_canon s')
  end.

Definition is_hex (c : Ascii.ascii) : bool :=
  let n := Ascii.nat_of_ascii c in
  ((48 <=? n) && (n <=? 57)) || ((65 <=? n) && (n <=? 70))
  || ((97 <=? n) && (n <=? 102)).

Definition hex24 (s : string) : bool :=
  (String.length s =? 24) && forallb is_hex (String.list_ascii_of_string s).

(** A value that messageSchema can cast to an ObjectId field: an absent
    field or the text of an ObjectId. *)
Definition casts_to_ObjectId (v : jsval) : bool :=
  match v with
  | Undefined => true
  | Str s => hex24 s
  | Obj _ => false
  end.

(** A connected socket: `socket.id` and `socket.handshake.query.userId`. *)
Record Socket : Type := mkSocket {
  id : string;
  query_userId : jsval
}.

(** Socket.IO draws `socket.id` from its id generator: never empty. *)
Definition valid_socket (s : Socket) : Prop := id s ≠ "".

(* --------------------------------------------------------------------- *)
(*  The registry: const onlineUsers = {}                                  *)
(* --------------------------------------------------------------------- *)

Module Registry.

(** What a read of `onlineUsers[identity]` finds: a socket id stored by a
    connection, or a member of Object.prototype. *)
Inductive slot : Type :=
| Handle (h : string)
| Member (name : string).

(** onlineUsers[identity] = handle. The assignment to `__proto__` runs the
    inherited setter, which ignores a string; a key conversion that throws
    leaves the object as it was. *)
Definition register (users : gmap string string) (identity : jsval)
    (handle : string) : gmap string string :=
  match property_key identity with
  | Some k => if String.eqb k "__proto__" then users else <[k := handle]> users
  | None => users
  end.

(** delete onlineUsers[identity] : the handle of the socket that is
    closing is not consulted. *)
Definition unregister (users : gmap string string) (identity : jsval)
    (handle : string) : gmap string string :=
  match property_key identity with
  | Some k => delete k users
  | None => users
  end.

(** onlineUsers[identity] : the own property if there is one, else the
    inherited member if the key names one, else `undefined` (None). The
    handlers test first whether the key conversion throws. *)
Definition lookup (users : gmap string string) (identity : jsval)
    : option slot :=
  match property_key identity with
  | Some k =>
      match users !! k with
      | Some h => Some (Handle h)
      | None => if inherited k then Some (Member k) else None
      end
  | None => None
  end.

(** if (targetSocket) : `undefined` and the empty string are falsy,
    functions and objects are truthy. *)
Definition truthy (targetSocket : option slot) : bool :=
  match targetSocket with
  | Some (Handle h) => negb (String.eqb h "")
  | Some (Member _) => true
  | None => false
  end.

End Registry.

(* --------------------------------------------------------------------- *)
(*  Effects and state                                                     *)
(* --------------------------------------------------------------------- *)

(** A document of the Message model: `new Message({sender, receiver, text})`
    with `createdAt` defaulting to `Date.now` at construction. *)
Record Message : Type := mkMessage {
  sender : jsval;
  receiver : jsval;
  text : jsval;
  createdAt : nat
}.

(** What a handler does to the outside world, in the order it does it. *)
Inductive action : Type :=
| Save (doc : Message)
    (* doc.save() is issued to the store *)
| Emit (target : string) (name : string) (payload : jsval)
    (* io.to(target).emit(name, payload) for a socket id *)
| UnhandledRejection (doc : Message)
    (* the save rejected in the async handler; no handler code catches it *)
| EmitToMember (member : string) (name : string) (payload : jsval)
    (* io.to(Object.prototype[member]).emit(name, payload) *)
| Thrown.
    (* a TypeError escaped the handler: the key conversion threw *)

(** Node's --unhandled-rejections mode: `throw` (the default since Node 15)
    turns an unhandled rejection into an uncaught exception that ends the
    process; `warn` prints a warning and carries on. *)
Inductive rejection_mode : Type := Throw | Warn.

Record Server : Type := mkServer {
  onlineUsers : gmap string string;
  awaiting : list Message;
    (* sendmessage handlers suspended at `await ...save()`, oldest first *)
  messages : list Message;
    (* the Message collection: documents whose save succeeded, oldest first *)
  alive : bool
    (* the Node process is running *)
}.

(** The process after start-up: `const onlineUsers = {}`. *)
Definition boot : Server :=
  {| onlineUsers := ∅; awaiting := []; messages := []; alive := true |}.

(** What reaches the server: the socket lifecycle, the six inbound socket
    events, and the store settling the save of the i-th suspended handler
    (ok = true: the promise resolves, ok = false: it rejects). *)
Inductive event : Type :=
| Connection (s : Socket)
| Disconnect (s : Socket)
| SendMessage (sender receiver text : jsval) (now : nat)
| SaveSettled (i : nat) (ok : bool)
| CallUser (from to offer : jsval)
| AnswerCall (from to answer : jsval)
| IceCandidate (from to candidate : jsval)
| RejectCall (from to : jsval)
| EndCall (from to : jsval).

(* --------------------------------------------------------------------- *)
(*  Handlers                                                              *)
(* --------------------------------------------------------------------- *)

(** const targetSocket = onlineUsers[target];
    if (targetSocket) io.to(targetSocket).emit(name, payload); *)
Definition emit_if_online (users : gmap string string) (target : jsval)
    (name : string) (payload : jsval) : list action :=
  match property_key target with
  | None => [Thrown]
  | Some _ =>
      let targetSocket := Registry.lookup users target in
      if Registry.truthy targetSocket then
        match targetSocket with
        | Some (Registry.Handle h) => [Emit h name payload]
        | Some (Registry.Member m) => [EmitToMember m name payload]
        | None => []
        end
      else []
  end.

(** The handler did not return: a TypeError escaped it. *)
Definition escaped (acts : list action) : bool :=
  existsb (λ a, match a with Thrown => true | _ => false end) acts.

(** io.on("connection", socket => { const userId = ...; onlineUsers[userId] = socket.id; ... }) *)
Definition on_connection (users : gmap string string) (s : Socket)
    : gmap string string :=
  let userId := query_userId s in
  Registry.register users userId (id s).

(** socket.on("disconnect", () => delete onlineUsers[userId]) *)
Definition on_disconnect (users : gmap string string) (s : Socket)
    : gmap string string :=
  let userId := query_userId s in
  Registry.unregister users userId (id s).

(** sendmessage, up to the await: the document is built and its save issued. *)
Definition sendmessage_document (sender receiver text : jsval) (now : nat)
    : Message :=
  {| sender := sender; receiver := receiver; text := text; createdAt := now |}.

(** The object literal `{ sender, text }` of the forward. *)
Definition receivemessage_payload (doc : Message) : jsval :=
  Obj [("sender", sender doc); ("text", text doc)].

(** sendmessage, after the await resolved. *)
Definition sendmessage_resume (users : gmap string string) (doc : Message)
    : list action :=
  emit_if_online users (receiver doc) "receivemessage"
    (receivemessage_payload doc).

Definition on_call_user (users : gmap string string) (from to offer : jsval)
    : list action :=
  emit_if_online users to "incoming-call" (Obj [("from", from); ("offer", offer)]).

Definition on_answer_call (users : gmap string string) (from to answer : jsval)
    : list action :=
  emit_if_online users to "call-answered" (Obj [("from", from); ("answer", answer)]).

Definition on_ice_candidate (users : gmap string string)
    (from to candidate : jsval) : list action :=
  emit_if_online users to "ice-candidate"
    (Obj [("from", from); ("candidate", candidate)]).

Definition on_reject_call (users : gmap string string) (from to : jsval)
    : list action :=
  emit_if_online users to "call-rejected" (Obj [("from", from)]).

Definition on_end_call (users : gmap string string) (from to : jsval)
    : list action :=
  emit_if_online users to "call-ended" (Obj [("from", from)]).

Definition with_users (st : Server) (users : gmap string string) : Server :=
  {| onlineUsers := users; awaiting := awaiting st;
     messages := messages st; alive := alive st |}.

Section Process.

Variable mode : rejection_mode.

(** No handler catches a rejected save and the file installs no
    `unhandledRejection` hook: the runtime's mode decides. *)
Definition survives_rejection : bool :=
  match mode with Throw => false | Warn => true end.

(** The process after an exception escaped a synchronous listener: an
    uncaught exception ends it. *)
Definition ended (st : Server) : Server :=
  {| onlineUsers := onlineUsers st; awaiting := awaiting st;
     messages := messages st; alive := false |}.

(** A synchronous listener ran and did `acts`. *)
Definition listener (st : Server) (acts : list action) : Server * list action :=
  (if escaped acts then ended st else st, acts).

(** The store settles the save of the i-th suspended sendmessage handler.
    The outcome is the store's: Mongoose rejects, among others, a document
    whose sender or receiver does not cast to an ObjectId. *)
Definition settle (st : Server) (i : nat) (ok : bool) : Server * list action :=
  match awaiting st !! i with
  | None => (st, [])
  | Some doc =>
      if ok then
        let acts := sendmessage_resume (onlineUsers st) doc in
        ({| onlineUsers := onlineUsers st; awaiting := delete i (awaiting st);
            messages := messages st ++ [doc];
            alive := if escaped acts then survives_rejection else alive st |},
         acts)
      else
        ({| onlineUsers := onlineUsers st; awaiting := delete i (awaiting st);
            messages := messages st; alive := survives_rejection |},
         [UnhandledRejection doc])
  end.

(** One turn of the event loop. A process that has ended handles nothing. *)
Definition handle (st : Server) (ev : event) : Server * list action :=
  if alive st then
    match ev with
    | Connection s =>
        match property_key (query_userId s) with
        | Some _ => (with_users st (on_connection (onlineUsers st) s), [])
        | None => listener st [Thrown]
        end
    | Disconnect s =>
        match property_key (query_userId s) with
        | Some _ => (with_users st (on_disconnect (onlineUsers st) s), [])
        | None => listener st [Thrown]
        end
    | SendMessage sender receiver text now =>
        let doc := sendmessage_document sender receiver text now in
        ({| onlineUsers := onlineUsers st; awaiting := awaiting st ++ [doc];
            messages := messages st; alive := alive st |},
         [Save doc])
    | SaveSettled i ok => settle st i ok
    | CallUser from to offer =>
        listener st (on_call_user (onlineUsers st) from to offer)
    | AnswerCall from to answer =>
        listener st (on_answer_call (onlineUsers st) from to answer)
    | IceCandidate from to candidate =>
        listener st (on_ice_candidate (onlineUsers st) from to candidate)
    | RejectCall from to => listener st (on_reject_call (onlineUsers st) from to)
    | EndCall from to => listener st (on_end_call (onlineUsers st) from to)
    end
  else (st, []).

(** A sequence of turns: the final state and everything done, in order. *)
Fixpoint run (st : Server) (evs : list event) : Server * list action :=
  match evs with
  | [] => (st, [])
  | ev :: evs' =>
      let '(st1, done1) := handle st ev in
      let '(st2, done2) := run st1 evs' in
      (st2, done1 ++ done2)
  end.

(** Events the environment can deliver: a connecting socket has an id and
    its userId comes from the query string (a string or nothing); a save
    resolves only for a document whose sender and receiver cast. *)
Definition deliverable (st : Server) (ev : event) : Prop :=
  match ev with
  | Connection s =>
      valid_socket s
      ∧ match query_userId s with Obj _ => False | _ => True end
  | SaveSettled i true =>
      ∀ doc, awaiting st !! i = Some doc →
             casts_to_ObjectId (sender doc) = true
             ∧ casts_to_ObjectId (receiver doc) = true
  | _ => True
  end.

Inductive reachable : Server → Prop :=
| reachable_boot : reachable boot
| reachable_turn st ev :
    reachable st → deliverable st ev → reachable (handle st ev).1.

End Process.

(* --------------------------------------------------------------------- *)
(*  Observations on events and traces                                     *)
(* --------------------------------------------------------------------- *)

(** The socket lifecycle, as opposed to the inbound socket events. *)
Definition is_lifecycle (ev : event) : bool :=
  match ev with
  | Connection _ | Disconnect _ => true
  | _ => false
  end.

(** The documents of the sendmessage events of a schedule, in order. *)
Definition sends (evs : list event) : list Message :=
  omap (λ ev, match ev with
              | SendMessage sender receiver text now =>
                  Some (sendmessage_document sender receiver text now)
              | _ => None
              end) evs.

(** The documents whose save was issued, in the order of issue. *)
Definition saves (acts : list action) : list Message :=
  omap (λ a, match a with Save doc => Some doc | _ => None end) acts.

(** The payloads of the receivemessage events emitted, in order. *)
Definition forwards (acts : list action) : list jsval :=
  omap (λ a, match a with
             | Emit _ name payload =>
                 if String.eqb name "receivemessage" then Some payload else None
             | _ => None
             end) acts.

(** The store settles saves in the order they were issued: it is always
    the oldest suspended handler that resumes. *)
Definition settles_in_order (evs : list event) : Prop :=
  Forall (λ ev, match ev with SaveSettled i _ => i = 0 | _ => True end) evs.



(** The documents whose save was rejected, in order. *)
Definition rejected (acts : list action) : list Message :=
  omap (λ a, match a with UnhandledRejection doc => Some doc | _ => None end)
    acts.

(* --------------------------------------------------------------------- *)
(*  The HTTP API (lines 21-137): accounts, contacts, history              *)
(*                                                                        *)
(*  The collections are lists of documents, oldest first. A request is    *)
(*  one step on them: it describes a request during which no other        *)
(*  request writes. Request fields are strings; ids are compared as the   *)
(*  strings they are written as. A result of None stands for a handler    *)
(*  whose promise rejected: it sends no response.                         *)
(* --------------------------------------------------------------------- *)

(** userSchema: number (String, unique, required), password, name, avatar,
    contacts (ids of users), and the version key `__v` that Mongoose adds
    to every document. No route writes `avatar`. Ids are stored as
    ObjectIds, written in lower case. *)
Module Schema.

Record User : Type := mkUser {
  _id : string;
  number : string;
  password : string;
  name : option string;
  avatar : option string;
  contacts : list string;
  __v : nat
}.

End Schema.

Import Schema.

(** An element of the chat list: { contactId, name, avatar, lastMessage,
    lastMessageAt }; None stands for `null`. *)
Module ChatList.

Record entry : Type := mkEntry {
  contactId : string;
  name : option string;
  avatar : option string;
  lastMessage : option jsval;
  lastMessageAt : option nat
}.

End ChatList.

(** The object literals that the routes below pass to res.json. *)
Inductive http_body : Type :=
| error_body (error : string)          (* { error } *)
| userId_body (userId : string)        (* { userId } *)
| success_body                         (* { success: true } *)
| messages_body (docs : list Message)  (* the documents found *)
| chatlist_body (entries : list ChatList.entry).

(** res.status(status).json(body); res.json(body) is status 200. *)
Record Response : Type := mkResponse {
  status : nat;
  body : http_body
}.

(** User.findOne({ number }) *)
Definition findOne_number (users : list User) (n : string)
    : option (nat * User) :=
  list_find (λ u, number u = n) users.

(** User.findById(id), for an id that casts to an ObjectId: the position
    of the document and the document. The id is cast before it is
    compared with the stored ObjectIds. *)
Definition findById (users : list User) (i : string) : option (nat * User) :=
  list_find (λ u, _id u = oid_canon i) users.

(** user.contacts.push(contactId); user.save() : the id is cast, and the
    save of a changed array increments the version key. *)
Definition push_contact (u : User) (contactId : string) : User :=
  {| _id := _id u; number := number u; password := password u;
     name := name u; avatar := avatar u;
     contacts := contacts u ++ [oid_canon contactId];
     __v := S (__v u) |}.

(** { $pull: { contacts: contactId } } : an update, the version key stays. *)
Definition pull_contact (u : User) (contactId : string) : User :=
  {| _id := _id u; number := number u; password := password u;
     name := name u; avatar := avatar u;
     contacts := filter (λ c, c ≠ oid_canon contactId) (contacts u);
     __v := __v u |}.

(** A stored sender or receiver is the ObjectId that `i` casts to. *)
Definition is_id (v : jsval) (i : string) : bool :=
  match v with
  | Str s => String.eqb (oid_canon s) (oid_canon i)
  | _ => false
  end.

(** $or: [{ sender: userId, receiver: contactId },
          { sender: contactId, receiver: userId }] *)
Definition between (userId contactId : string) (m : Message) : bool :=
  (is_id (sender m) userId && is_id (receiver m) contactId)
  || (is_id (sender m) contactId && is_id (receiver m) userId).

(** .sort({ createdAt: 1 }); documents with equal createdAt come in some
    order, the model keeps the order of the collection. *)
Definition createdAt_le (a b : Message) : Prop := createdAt a ≤ createdAt b.

#[global] Instance createdAt_le_dec : RelDecision createdAt_le :=
  λ a b, decide (createdAt a ≤ createdAt b).

Definition sort_createdAt (docs : list Message) : list Message :=
  merge_sort createdAt_le docs.

(** .sort({ createdAt: -1 }) followed by findOne: a document with the
    greatest createdAt, if there is any. *)
Definition createdAt_ge (a b : Message) : Prop := createdAt b ≤ createdAt a.

#[global] Instance createdAt_ge_dec : RelDecision createdAt_ge :=
  λ a b, decide (createdAt b ≤ createdAt a).

Definition last_message (collection : list Message) (userId contactId : string)
    : option Message :=
  head (merge_sort createdAt_ge
          (filter (λ m, between userId contactId m = true) collection)).

(** `v || null` on a stored text: absent and empty texts are falsy. *)
Definition or_null (v : jsval) : option jsval :=
  match v with
  | Undefined => None
  | Str s => if String.eqb s "" then None else Some (Str s)
  | Obj fields => Some (Obj fields)
  end.

(** .populate("contacts", ...): each id is replaced by the document it
    refers to; an id that refers to no document is dropped. *)
Definition populate_contacts (users : list User) (ids : list string)
    : list User :=
  omap (λ c, snd <$> findById users c) ids.

(** The callback of user.contacts.map in /chatlist/:userId. *)
Definition chat_entry (collection : list Message) (userId : string)
    (contact : User) : ChatList.entry :=
  let lastMsg := last_message collection userId (_id contact) in
  {| ChatList.contactId := _id contact;
     ChatList.name := Schema.name contact;
     ChatList.avatar := Schema.avatar contact;
     ChatList.lastMessage := lastMsg ≫= λ m, or_null (text m);
     ChatList.lastMessageAt := createdAt <$> lastMsg |}.

(** Every id in a contact list is the id of a stored user. *)
Definition contacts_exist (users : list User) : Prop :=
  ∀ u c, u ∈ users → c ∈ contacts u → is_Some (findById users c).

Section Http.

(** bcrypt.hash(data, rounds) with the salt it draws, bcrypt.compare(data,
    hash), and Mongoose's cast of a string to an ObjectId. *)
Variable bcrypt_hash : string → nat → string → string.
Variable bcrypt_compare : string → string → bool.
Variable is_object_id : string → bool.

(** app.post("/signup"): `salt` is the salt bcrypt draws and `oid` the _id
    of the new document. The save of a document with an empty `number`
    fails validation (required). *)
Definition signup (users : list User) (number password : string)
    (name : option string) (salt oid : string)
    : list User * option Response :=
  match findOne_number users number with
  | Some existing =>
      (users, Some (mkResponse 400 (error_body "User already exists!")))
  | None =>
      let hash := bcrypt_hash password 10 salt in
      let newUser :=
        {| Schema._id := oid; Schema.number := number;
           Schema.password := hash; Schema.name := name;
           Schema.avatar := None; Schema.contacts := [];
           Schema.__v := 0 |} in
      if String.eqb number "" then (users, None)
      else (users ++ [newUser], Some (mkResponse 200 (userId_body (_id newUser))))
  end.

(** app.post("/login") *)
Definition login (users : list User) (number password : string) : Response :=
  match findOne_number users number with
  | None => mkResponse 401 (error_body "Invalid credentials")
  | Some (_, user) =>
      let match_ := bcrypt_compare password (Schema.password user) in
      if negb match_ then mkResponse 401 (error_body "Invalid credentials")
      else mkResponse 200 (userId_body (_id user))
  end.

(** app.post("/contacts/add") *)
Definition contacts_add (users : list User) (userId contactId : string)
    : list User * option Response :=
  if negb (is_object_id userId) then (users, None)
  else if negb (is_object_id contactId) then (users, None)
  else
    match findById users userId, findById users contactId with
    | Some (i, user), Some contact =>
        if bool_decide (oid_canon contactId ∈ contacts user)
        then (users, Some (mkResponse 200 success_body))
        else (<[i := push_contact user contactId]> users,
              Some (mkResponse 200 success_body))
    | _, _ =>
        (users, Some (mkResponse 404 (error_body "User or contact not found")))
    end.

(** app.delete("/contacts/remove") *)
Definition contacts_remove (users : list User) (userId contactId : string)
    : list User * option Response :=
  if negb (is_object_id userId && is_object_id contactId) then (users, None)
  else
    match findById users userId with
    | Some (i, user) =>
        (<[i := pull_contact user contactId]> users,
         Some (mkResponse 200 success_body))
    | None => (users, Some (mkResponse 200 success_body))
    end.

(** app.get("/messages/:userId/:contactId") *)
Definition get_messages (collection : list Message) (userId contactId : string)
    : option Response :=
  if negb (is_object_id userId && is_object_id contactId) then None
  else
    Some (mkResponse 200
            (messages_body
               (sort_createdAt
                  (filter (λ m, between userId contactId m = true) collection)))).

(** app.get("/chatlist/:userId") *)
Definition chatlist (users : list User) (collection : list Message)
    (userId : string) : option Response :=
  if negb (is_object_id userId) then None
  else
    match findById users userId with
    | None => Some (mkResponse 404 (error_body "User not found"))
    | Some (_, user) =>
        Some (mkResponse 200
                (chatlist_body
                   (chat_entry collection userId
                      <$> populate_contacts users (contacts user))))
    end.

End Http.

(* --------------------------------------------------------------------- *)
(*  Registry lemmas                                                       *)
(* --------------------------------------------------------------------- *)

Section RegistryFacts.

Implicit Types (users : gmap string string) (X Y : jsval) (h k : string).

Lemma lookup_register_same users X k h :
  property_key X = Some k → k ≠ "__proto__" →
  Registry.lookup (Registry.register users X h) X = Some (Registry.Handle h).
Proof.
  intros Hk Hne. unfold Registry.lookup, Registry.register. rewrite Hk.
  destruct (String.eqb_spec k "__proto__"); [done|].
  by rewrite lookup_insert_eq.
Qed.

Lemma lookup_register_key users X Y k h :
  property_key X = Some k → property_key Y = Some k → k ≠ "__proto__" →
  Registry.lookup (Registry.register users X h) Y = Some (Registry.Handle h).
Proof.
  intros Hx Hy Hne. unfold Registry.lookup, Registry.register. rewrite Hx, Hy.
  destruct (String.eqb_spec k "__proto__"); [done|].
  by rewrite lookup_insert_eq.
Qed.

Lemma lookup_register_other users X Y h :
  property_key X ≠ property_key Y →
  Registry.lookup (Registry.register users X h) Y = Registry.lookup users Y.
Proof.
  intros Hne. unfold Registry.lookup, Registry.register.
  destruct (property_key X) as [kx|]; [|done].
  destruct (String.eqb kx "__proto__"); [done|].
  destruct (property_key Y) as [ky|]; [|done].
  rewrite lookup_insert_ne; [done|]. congruence.
Qed.

Lemma unregister_removes users X k h :
  property_key X = Some k → Registry.unregister users X h !! k = None.
Proof.
  intros Hk. unfold Registry.unregister. rewrite Hk. apply lookup_delete_eq.
Qed.

Lemma lookup_unregister_same users X h h' :
  Registry.lookup (Registry.unregister users X h) X ≠ Some (Registry.Handle h').
Proof.
  unfold Registry.lookup, Registry.unregister.
  destruct (property_key X) as [k|]; [|done].
  rewrite lookup_delete_eq. by destruct (inherited k).
Qed.

Lemma lookup_unregister_other users X Y h :
  property_key X ≠ property_key Y →
  Registry.lookup (Registry.unregister users X h) Y = Registry.lookup users Y.
Proof.
  intros Hne. unfold Registry.lookup, Registry.unregister.
  destruct (property_key X) as [kx|]; [|done].
  destruct (property_key Y) as [ky|]; [|done].
  rewrite lookup_delete_ne; [done|]. congruence.
Qed.

Lemma lookup_own users X k h :
  property_key X = Some k → users !! k = Some h →
  Registry.lookup users X = Some (Registry.Handle h).
Proof. intros Hk Hh. unfold Registry.lookup. by rewrite Hk, Hh. Qed.

Lemma lookup_ordinary_miss users X k :
  property_key X = Some k → users !! k = None → inherited k = false →
  Registry.lookup users X = None.
Proof. intros Hk Hh Hi. unfold Registry.lookup. by rewrite Hk, Hh, Hi. Qed.

Lemma truthy_socket_id h :
  h ≠ "" → Registry.truthy (Some (Registry.Handle h)) = true.
Proof.
  intros Hne. unfold Registry.truthy.
  destruct (String.eqb_spec h ""); [contradiction | reflexivity].
Qed.

Lemma emit_if_online_hit users X h name payload :
  Registry.lookup users X = Some (Registry.Handle h) → h ≠ "" →
  emit_if_online users X name payload = [Emit h name payload].
Proof.
  intros Hl Hne. unfold emit_if_online. rewrite Hl.
  unfold Registry.lookup in Hl. destruct (property_key X); [|done].
  by rewrite truthy_socket_id.
Qed.

Lemma emit_if_online_miss users X name payload :
  property_key X ≠ None → Registry.lookup users X = None →
  emit_if_online users X name payload = [].
Proof.
  intros Hk Hl. unfold emit_if_online. rewrite Hl.
  by destruct (property_key X).
Qed.

(** Whatever the registry holds, the idiom does one of four things. *)
Lemma emit_if_online_cases users X name payload :
  emit_if_online users X name payload = []
  ∨ (∃ h, Registry.lookup users X = Some (Registry.Handle h) ∧ h ≠ ""
          ∧ emit_if_online users X name payload = [Emit h name payload])
  ∨ (∃ m, Registry.lookup users X = Some (Registry.Member m)
          ∧ emit_if_online users X name payload = [EmitToMember m name payload])
  ∨ (property_key X = None
     ∧ emit_if_online users X name payload = [Thrown]).
Proof.
  unfold emit_if_online.
  destruct (property_key X) as [k|] eqn:Hk; [|by right; right; right].
  destruct (Registry.lookup users X) as [[h|m]|] eqn:Hl; [| |by left].
  - unfold Registry.truthy. destruct (String.eqb_spec h ""); simpl; [by left|].
    right; left. by exists h.
  - simpl. right; right; left. by exists m.
Qed.

End RegistryFacts.

(** Entries of an association list: none for a key that does not occur,
    at most one per key when no key is repeated. *)
Lemma entries_for_absent_key (l : list (string * string)) (k : string) :
  k ∉ l.*1 → filter (λ kv, kv.1 = k) l = [].
Proof.
  induction l as [|[k' v] l IH]; simpl; intros Hnotin; [reflexivity|].
  apply not_elem_of_cons in Hnotin as [Hne Hnotin].
  rewrite filter_cons_False; [by apply IH|]. simpl. congruence.
Qed.

Lemma entries_for_key_exact (l : list (string * string)) (k v : string) :
  NoDup l.*1 → (k, v) ∈ l → filter (λ kv, kv.1 = k) l = [(k, v)].
Proof.
  induction l as [|[k' v'] l IH]; simpl; intros Hnd Hin.
  { by apply not_elem_of_nil in Hin. }
  apply NoDup_cons in Hnd as [Hnotin Hnd].
  apply elem_of_cons in Hin as [[= <- <-] | Hin].
  - rewrite filter_cons_True by done.
    by rewrite entries_for_absent_key.
  - rewrite filter_cons_False; [by apply IH|]. simpl. intros ->.
    apply Hnotin. apply list_elem_of_fmap. by exists (k, v).
Qed.

(* --------------------------------------------------------------------- *)
(*  C4, C1, C6, C9 : the registry                                          *)
(* --------------------------------------------------------------------- *)

(** C4 (as stated, fails). Two sockets register under the identity
    "__proto__": each assignment runs the inherited setter and stores
    nothing, the registry stays empty, and the lookup finds the inherited
    member, not the second handle. *)
Lemma proto_identity_is_never_registered :
  let X := Str "__proto__" in
  let users := Registry.register (Registry.register ∅ X "s1") X "s2" in
  users = ∅
  ∧ Registry.lookup users X = Some (Registry.Member "__proto__")
  ∧ Registry.lookup users X ≠ Some (Registry.Handle "s2")
  ∧ onlineUsers
      (run Throw boot [Connection (mkSocket "s1" X);
                       Connection (mkSocket "s2" X)]).1 = ∅.
Proof. vm_compute. repeat split; discriminate. Qed.

(** C4 (amended). The registry is last-writer-wins for every identity
    whose property key is not "__proto__": after register(X, h1) followed
    by register(X, h2) - also as two connections presenting X -
    lookup(X) returns h2, and the registry then lists exactly one entry for
    X, the one with h2. *)
Theorem register_last_writer_wins (users : gmap string string) (X : jsval)
    (k h1 h2 : string) :
  property_key X = Some k → k ≠ "__proto__" →
  Registry.lookup (Registry.register (Registry.register users X h1) X h2) X
    = Some (Registry.Handle h2)
  ∧ Registry.lookup
      (on_connection (on_connection users (mkSocket h1 X)) (mkSocket h2 X)) X
    = Some (Registry.Handle h2)
  ∧ filter (λ kv, kv.1 = k)
      (map_to_list (Registry.register (Registry.register users X h1) X h2))
    = [(k, h2)].
Proof.
  intros Hk Hne.
  split; [by eapply lookup_register_same|].
  split; [by eapply lookup_register_same|].
  apply entries_for_key_exact; [apply NoDup_fst_map_to_list|].
  apply elem_of_map_to_list. unfold Registry.register. rewrite Hk.
  destruct (String.eqb_spec k "__proto__"); [done|]. apply lookup_insert_eq.
Qed.

Lemma register_last_writer_wins_witness :
  let users := Registry.register ∅ (Str "5f1d7f3e9c2a4b0012345678") "s0" in
  Registry.lookup
    (Registry.register (Registry.register users (Str "constructor") "s1")
       (Str "constructor") "s2") (Str "constructor")
  = Some (Registry.Handle "s2").
Proof.
  intros users.
  apply (register_last_writer_wins users (Str "constructor") "constructor"
           "s1" "s2"); [reflexivity | discriminate].
Defined.

(** C1 (as stated, fails). A socket "s1" connects as "u1", then a newer
    socket "s2" connects as "u1"; the registry stores "s2". The disconnect
    of the older socket "s1" then removes the entry: lookup("u1") is empty,
    not "s2". *)
Lemma stale_disconnect_evicts_live_entry :
  let old := mkSocket "s1" (Str "u1") in
  let new := mkSocket "s2" (Str "u1") in
  let st := (run Throw boot [Connection old; Connection new]).1 in
  id old ≠ id new
  ∧ Registry.lookup (onlineUsers st) (Str "u1") = Some (Registry.Handle "s2")
  ∧ Registry.lookup (Registry.unregister (onlineUsers st) (Str "u1") (id old))
      (Str "u1") ≠ Some (Registry.Handle "s2")
  ∧ Registry.lookup (onlineUsers (handle Throw st (Disconnect old)).1) (Str "u1")
    = None.
Proof. vm_compute. repeat split; discriminate. Qed.

(** C1 (amended). unregister(X, h) removes the entry for X whatever handle
    is stored under X: afterwards lookup(X) returns no handle - nothing,
    or, for a name that Object.prototype defines, that inherited member.
    The disconnect handler of a socket removes the entry of the identity
    that socket connected with, without comparing handles. *)
Theorem unregister_ignores_handle (users : gmap string string) (X : jsval)
    (h : string) (s : Socket) :
  (∀ h', Registry.lookup (Registry.unregister users X h) X
         ≠ Some (Registry.Handle h'))
  ∧ (Registry.lookup (Registry.unregister users X h) X = None
     ∨ ∃ m, inherited m = true
            ∧ Registry.lookup (Registry.unregister users X h) X
              = Some (Registry.Member m))
  ∧ match property_key X with
    | Some k => Registry.unregister users X h = delete k users
    | None => Registry.unregister users X h = users
    end
  ∧ (∀ h', Registry.lookup (on_disconnect users s) (query_userId s)
           ≠ Some (Registry.Handle h')).
Proof.
  split; [intros h'; apply lookup_unregister_same|].
  split; [|split; [|intros h'; apply lookup_unregister_same]].
  - unfold Registry.lookup, Registry.unregister.
    destruct (property_key X) as [k|]; [|by left].
    rewrite lookup_delete_eq. destruct (inherited k) eqn:Hi; [|by left].
    right. by exists k.
  - unfold Registry.unregister. by destruct (property_key X).
Qed.

(** C6 (as stated, fails). A socket that connects without a userId is
    registered under the key "undefined", one that connects with an empty
    userId under the key "": lookup of that key returns its handle, and a
    call addressed to it is forwarded to that socket. *)
Lemma anonymous_connection_is_reachable :
  let anon := mkSocket "s1" Undefined in
  let blank := mkSocket "s2" (Str "") in
  let users := on_connection (on_connection ∅ anon) blank in
  Registry.lookup users (Str "undefined") = Some (Registry.Handle (id anon))
  ∧ Registry.lookup users Undefined = Some (Registry.Handle (id anon))
  ∧ Registry.lookup users (Str "") = Some (Registry.Handle (id blank))
  ∧ on_call_user users (Str "u1") (Str "undefined") (Str "sdp")
    = [Emit "s1" "incoming-call" (Obj [("from", Str "u1"); ("offer", Str "sdp")])]
  ∧ on_end_call users (Str "u1") (Str "")
    = [Emit "s2" "call-ended" (Obj [("from", Str "u1")])].
Proof. vm_compute. repeat split; reflexivity. Qed.

(** C6 (amended). A connection that supplies an absent or empty identity is
    accepted and registered like any other, under the key "undefined"
    (absent) or "" (empty). Lookup of that key returns its handle, and a
    signaling event addressed to that key is forwarded to it. Lookup of
    every other key does not return its handle, provided the handle was not
    in the registry before. *)
Theorem anonymous_connection_registered (users : gmap string string)
    (s : Socket) (from offer : jsval) :
  query_userId s = Undefined ∨ query_userId s = Str "" →
  valid_socket s →
  (∀ k, users !! k ≠ Some (id s)) →
  let users' := on_connection users s in
  (property_key (query_userId s) = Some "undefined"
   ∨ property_key (query_userId s) = Some "")
  ∧ (∃ k, property_key (query_userId s) = Some k ∧ users' !! k = Some (id s))
  ∧ Registry.lookup users' (query_userId s) = Some (Registry.Handle (id s))
  ∧ on_call_user users' from (query_userId s) offer
    = [Emit (id s) "incoming-call" (Obj [("from", from); ("offer", offer)])]
  ∧ ∀ Y, property_key Y ≠ property_key (query_userId s) →
         Registry.lookup users' Y ≠ Some (Registry.Handle (id s)).
Proof.
  intros Hanon Hid Hfresh users'.
  assert (∃ k, property_key (query_userId s) = Some k ∧ k ≠ "__proto__"
               ∧ (k = "undefined" ∨ k = "")) as (k & Hk & Hne & Hcases).
  { destruct Hanon as [-> | ->]; eexists; (split; [reflexivity|]);
      (split; [discriminate|]); [by left | by right]. }
  assert (Registry.lookup users' (query_userId s)
          = Some (Registry.Handle (id s))) as Hl
    by (by eapply lookup_register_same).
  split; [rewrite Hk; destruct Hcases as [-> | ->]; [by left | by right]|].
  split.
  { exists k. split; [done|]. unfold users', on_connection, Registry.register.
    rewrite Hk. destruct (String.eqb_spec k "__proto__"); [done|].
    apply lookup_insert_eq. }
  split; [exact Hl|].
  split; [by apply emit_if_online_hit|].
  intros Y Hne'. unfold users', on_connection.
  rewrite lookup_register_other by done.
  unfold Registry.lookup. destruct (property_key Y) as [ky|]; [|done].
  destruct (users !! ky) as [h|] eqn:Hh; [|by destruct (inherited ky)].
  intros [= ->]. by apply (Hfresh ky).
Qed.

Lemma anonymous_connection_registered_witness :
  let s := mkSocket "s1" Undefined in
  Registry.lookup (on_connection ∅ s) (Str "undefined")
    = Some (Registry.Handle "s1")
  ∧ ∀ Y, property_key Y ≠ Some "undefined" →
         Registry.lookup (on_connection ∅ s) Y ≠ Some (Registry.Handle "s1").
Proof.
  intros s.
  destruct (anonymous_connection_registered ∅ s Undefined Undefined)
    as (_ & _ & Hkey & _ & Hother).
  - left. reflexivity.
  - unfold valid_socket. simpl. discriminate.
  - intros k. rewrite lookup_empty. discriminate.
  - split; [exact Hkey | exact Hother].
Defined.

Lemma handle_keeps_registry mode (st : Server) (ev : event) :
  is_lifecycle ev = false → onlineUsers (handle mode st ev).1 = onlineUsers st.
Proof.
  intros Hev. unfold handle. destruct (alive st); [|reflexivity].
  destruct ev; try discriminate; try reflexivity;
    try (unfold listener; by destruct (escaped _)).
  unfold settle. destruct (awaiting st !! i); [|reflexivity].
  by destruct ok.
Qed.

(** C9. Only the connection lifecycle mutates the registry: handling a
    sendmessage event, the settling of its save, or any of the five
    signaling events leaves the identity-to-handle map as it was; and
    registering or unregistering one identity leaves the entry of every
    other identity as it was. *)
Theorem only_lifecycle_mutates_registry mode (st : Server) (ev : event)
    (users : gmap string string) (X Y : jsval) (h : string) :
  is_lifecycle ev = false →
  property_key X ≠ property_key Y →
  onlineUsers (handle mode st ev).1 = onlineUsers st
  ∧ Registry.lookup (Registry.register users X h) Y = Registry.lookup users Y
  ∧ Registry.lookup (Registry.unregister users X h) Y = Registry.lookup users Y
  ∧ Registry.lookup (on_connection users (mkSocket h X)) Y
    = Registry.lookup users Y
  ∧ Registry.lookup (on_disconnect users (mkSocket h X)) Y
    = Registry.lookup users Y.
Proof.
  intros Hev Hne. split; [by apply handle_keeps_registry|].
  split; [by apply lookup_register_other|].
  split; [by apply lookup_unregister_other|].
  split; [by apply lookup_register_other | by apply lookup_unregister_other].
Qed.

Lemma only_lifecycle_mutates_registry_witness :
  let st := (run Throw boot [Connection (mkSocket "s2" (Str "u2"))]).1 in
  onlineUsers (handle Throw st (SendMessage (Str "u1") (Str "u2") (Str "hi") 7)).1
    = onlineUsers st
  ∧ Registry.lookup (Registry.register (onlineUsers st) (Str "u1") "s1") (Str "u2")
    = Registry.lookup (onlineUsers st) (Str "u2").
Proof.
  intros st.
  destruct (only_lifecycle_mutates_registry Throw st
              (SendMessage (Str "u1") (Str "u2") (Str "hi") 7)
              (onlineUsers st) (Str "u1") (Str "u2") "s1")
    as (Hframe & Hreg & _).
  - reflexivity.
  - simpl. discriminate.
  - split; [exact Hframe | exact Hreg].
Defined.

(* --------------------------------------------------------------------- *)
(*  The event loop: reachable states                                      *)
(* --------------------------------------------------------------------- *)

Section EventLoop.

Variable mode : rejection_mode.

Lemma handle_dead (st : Server) (ev : event) :
  alive st = false → handle mode st ev = (st, []).
Proof. intros Hdead. unfold handle. by rewrite Hdead. Qed.

Lemma handle_lifecycle_registry (st : Server) (ev : event) :
  onlineUsers (handle mode st ev).1 = onlineUsers st
  ∨ (∃ s, ev = Connection s
          ∧ onlineUsers (handle mode st ev).1 = on_connection (onlineUsers st) s)
  ∨ (∃ s, ev = Disconnect s
          ∧ onlineUsers (handle mode st ev).1 = on_disconnect (onlineUsers st) s).
Proof.
  destruct (is_lifecycle ev) eqn:Hlc; [|left; by apply handle_keeps_registry].
  unfold handle. destruct (alive st); [|by left].
  destruct ev; try discriminate; simpl;
    (destruct (property_key (query_userId s)); [|by left]); simpl.
  - right; left. by exists s.
  - right; right. by exists s.
Qed.

(** The registry after a turn holds what it held, or the socket that just
    connected. *)
Lemma handle_registry_origin (st : Server) (ev : event) (k h : string) :
  onlineUsers (handle mode st ev).1 !! k = Some h →
  onlineUsers st !! k = Some h ∨ ∃ s, ev = Connection s ∧ id s = h.
Proof.
  destruct (handle_lifecycle_registry st ev)
    as [-> | [(s & -> & ->) | (s & -> & ->)]]; [by left | |].
  - unfold on_connection, Registry.register.
    destruct (property_key (query_userId s)) as [ks|]; [|by left].
    destruct (String.eqb ks "__proto__"); [by left|].
    destruct (decide (ks = k)) as [->|Hne].
    + rewrite lookup_insert_eq. intros [= <-]. right. by exists s.
    + rewrite lookup_insert_ne by done. by left.
  - unfold on_disconnect, Registry.unregister.
    destruct (property_key (query_userId s)) as [ks|]; [|by left].
    intros Hl. apply lookup_delete_Some in Hl as [_ Hl]. by left.
Qed.

(** Every handle in the registry is the id of a socket that connected. *)
Lemma reachable_handles_valid (st : Server) :
  reachable mode st →
  ∀ k h, onlineUsers st !! k = Some h → h ≠ "".
Proof.
  induction 1 as [|st ev Hreach IH Hev]; intros k h.
  - simpl. rewrite lookup_empty. discriminate.
  - intros [Hold | (s & -> & <-)]%handle_registry_origin; [by eapply IH|].
    by destruct Hev.
Qed.

Lemma reachable_emit_hit (st : Server) (X : jsval) (k h name : string)
    (payload : jsval) :
  reachable mode st → property_key X = Some k → onlineUsers st !! k = Some h →
  emit_if_online (onlineUsers st) X name payload = [Emit h name payload].
Proof.
  intros Hreach Hk Hl. apply emit_if_online_hit; [by eapply lookup_own|].
  by eapply reachable_handles_valid.
Qed.

End EventLoop.

(* --------------------------------------------------------------------- *)
(*  C3, C7 : signaling and lookup misses                                   *)
(* --------------------------------------------------------------------- *)

(** C3 (as stated, fails). Nobody is registered. A call addressed to
    "constructor" finds the member that the registry object inherits, which
    is truthy, and the handler emits to it: one emit, not zero. A call
    whose target is an object with a field named toString makes the key
    conversion throw: the process ends. *)
Lemma signaling_to_inherited_name_emits :
  onlineUsers boot = ∅
  ∧ (handle Throw boot (CallUser (Str "a") (Str "constructor") (Str "sdp"))).2
    = [EmitToMember "constructor" "incoming-call"
         (Obj [("from", Str "a"); ("offer", Str "sdp")])]
  ∧ (handle Throw boot (EndCall (Str "a") (Str "__proto__"))).2
    = [EmitToMember "__proto__" "call-ended" (Obj [("from", Str "a")])]
  ∧ handle Throw boot (RejectCall (Str "a") (Obj [("toString", Str "x")]))
    = (ended boot, [Thrown]).
Proof. vm_compute. repeat split; reflexivity. Qed.

(** C3 (amended). For each of the five inbound signaling events whose
    target `to` converts to a property key: if `to` is registered with
    handle h, the handler emits exactly one outbound event, to h, under the
    mapped name (incoming-call, call-answered, ice-candidate,
    call-rejected, call-ended) and carrying exactly {from, offer},
    {from, answer}, {from, candidate}, {from}, {from}; if `to` has no
    entry and its key is not a name that Object.prototype defines, it
    emits nothing. *)
Theorem signaling_routes mode (st : Server)
    (from to offer answer candidate : jsval) (k : string) :
  reachable mode st → alive st = true → property_key to = Some k →
  (∀ h, onlineUsers st !! k = Some h →
     (handle mode st (CallUser from to offer)).2
       = [Emit h "incoming-call" (Obj [("from", from); ("offer", offer)])]
     ∧ (handle mode st (AnswerCall from to answer)).2
       = [Emit h "call-answered" (Obj [("from", from); ("answer", answer)])]
     ∧ (handle mode st (IceCandidate from to candidate)).2
       = [Emit h "ice-candidate" (Obj [("from", from); ("candidate", candidate)])]
     ∧ (handle mode st (RejectCall from to)).2
       = [Emit h "call-rejected" (Obj [("from", from)])]
     ∧ (handle mode st (EndCall from to)).2
       = [Emit h "call-ended" (Obj [("from", from)])])
  ∧ (onlineUsers st !! k = None → inherited k = false →
     (handle mode st (CallUser from to offer)).2 = []
     ∧ (handle mode st (AnswerCall from to answer)).2 = []
     ∧ (handle mode st (IceCandidate from to candidate)).2 = []
     ∧ (handle mode st (RejectCall from to)).2 = []
     ∧ (handle mode st (EndCall from to)).2 = []).
Proof.
  intros Hreach Halive Hk. unfold handle. rewrite Halive. simpl.
  unfold on_call_user, on_answer_call, on_ice_candidate, on_reject_call,
    on_end_call.
  split.
  - intros h Hl. repeat split; by eapply reachable_emit_hit.
  - intros Hl Hi.
    assert (property_key to ≠ None) as Hconv by (by rewrite Hk).
    pose proof (lookup_ordinary_miss (onlineUsers st) to k Hk Hl Hi) as Hmiss.
    repeat split; by apply emit_if_online_miss.
Qed.

Lemma signaling_routes_witness :
  let callee := "5f1d7f3e9c2a4b0012345678" in
  let caller := "5f1d7f3e9c2a4b0012345699" in
  let st := (handle Throw boot (Connection (mkSocket "s2" (Str callee)))).1 in
  (handle Throw st (CallUser (Str caller) (Str callee) (Str "sdp"))).2
    = [Emit "s2" "incoming-call"
         (Obj [("from", Str caller); ("offer", Str "sdp")])]
  ∧ (handle Throw st (EndCall (Str callee) (Str caller))).2 = [].
Proof.
  intros callee caller st.
  assert (reachable Throw st) as Hreach.
  { apply (reachable_turn Throw boot (Connection (mkSocket "s2" (Str callee)))).
    - apply reachable_boot.
    - split; [|exact I]. unfold valid_socket. simpl. discriminate. }
  split.
  - apply (signaling_routes Throw st (Str caller) (Str callee) (Str "sdp")
             Undefined Undefined callee Hreach eq_refl eq_refl).
    vm_compute. reflexivity.
  - apply (signaling_routes Throw st (Str callee) (Str caller) Undefined
             Undefined Undefined caller Hreach eq_refl eq_refl).
    + vm_compute. reflexivity.
    + vm_compute. reflexivity.
Defined.

(** C7 (as stated, fails). Nobody is registered, and the miss is not
    silent: a reject-call addressed to "toString" is emitted, to the member
    the registry object inherits; an end-call whose target is an object
    with a field named toString throws in the handler and the process is
    no longer alive. *)
Lemma unregistered_target_is_not_silent :
  onlineUsers boot !! "toString" = None
  ∧ (handle Warn boot (RejectCall (Str "a") (Str "toString"))).2
    = [EmitToMember "toString" "call-rejected" (Obj [("from", Str "a")])]
  ∧ (handle Warn boot (EndCall (Str "a") (Obj [("toString", Str "x")]))).2
    = [Thrown]
  ∧ alive (handle Warn boot (EndCall (Str "a") (Obj [("toString", Str "x")]))).1
    = false.
Proof. vm_compute. repeat split; reflexivity. Qed.

(** C7 (amended). For a target that converts to a property key which is
    not a name that Object.prototype defines: a signaling event whose
    target has no registry entry, and a sendmessage whose receiver has no
    registry entry when its handler looks it up (after the save resolved),
    emit nothing and raise nothing: the turn produces no action at all and
    the process keeps running. *)
Theorem lookup_miss_is_silent mode (st : Server) (from to payload : jsval)
    (k : string) (i : nat) (doc : Message) :
  alive st = true →
  (property_key to = Some k → inherited k = false →
   onlineUsers st !! k = None →
     handle mode st (CallUser from to payload) = (st, [])
     ∧ handle mode st (AnswerCall from to payload) = (st, [])
     ∧ handle mode st (IceCandidate from to payload) = (st, [])
     ∧ handle mode st (RejectCall from to) = (st, [])
     ∧ handle mode st (EndCall from to) = (st, []))
  ∧ (awaiting st !! i = Some doc →
     property_key (receiver doc) = Some k → inherited k = false →
     onlineUsers st !! k = None →
     (handle mode st (SaveSettled i true)).2 = []
     ∧ alive (handle mode st (SaveSettled i true)).1 = true
     ∧ messages (handle mode st (SaveSettled i true)).1 = messages st ++ [doc]).
Proof.
  intros Halive. unfold handle. rewrite Halive. split.
  - intros Hk Hi Hl.
    assert (property_key to ≠ None) as Hconv by (by rewrite Hk).
    pose proof (lookup_ordinary_miss (onlineUsers st) to k Hk Hl Hi) as Hmiss.
    unfold on_call_user, on_answer_call, on_ice_candidate, on_reject_call,
      on_end_call.
    by rewrite !emit_if_online_miss.
  - intros Hdoc Hk Hi Hl. unfold settle. rewrite Hdoc. simpl.
    assert (property_key (receiver doc) ≠ None) as Hconv by (by rewrite Hk).
    pose proof (lookup_ordinary_miss (onlineUsers st) (receiver doc) k Hk Hl Hi)
      as Hmiss.
    unfold sendmessage_resume. by rewrite emit_if_online_miss.
Qed.

Lemma lookup_miss_is_silent_witness :
  let a := Str "5f1d7f3e9c2a4b0012345678" in
  let b := Str "5f1d7f3e9c2a4b0012345699" in
  let st := (handle Throw boot (SendMessage a b (Str "hi") 3)).1 in
  handle Throw st (CallUser a b (Str "sdp")) = (st, [])
  ∧ (handle Throw st (SaveSettled 0 true)).2 = [].
Proof.
  intros a b st.
  destruct (lookup_miss_is_silent Throw st a b (Str "sdp")
              "5f1d7f3e9c2a4b0012345699" 0
              (sendmessage_document a b (Str "hi") 3) eq_refl)
    as [Hsig Hsend].
  split.
  - apply Hsig; vm_compute; reflexivity.
  - apply Hsend; vm_compute; reflexivity.
Defined.

(* --------------------------------------------------------------------- *)
(*  C5 : a save that fails                                                *)
(* --------------------------------------------------------------------- *)

(** C5 (as stated, fails). "u2" is connected; a sendmessage to "u2" is
    suspended on its save; the store rejects the save. Under Node's default
    handling of unhandled rejections the process ends: it is no longer
    alive, and the next event, a call addressed to the connected "u2",
    is handled by nobody. *)
Lemma store_failure_ends_process :
  let st := (run Throw boot [Connection (mkSocket "s2" (Str "u2"));
                             SendMessage (Str "u1") (Str "u2") (Str "hi") 1]).1 in
  let failed := handle Throw st (SaveSettled 0 false) in
  alive st = true
  ∧ Registry.lookup (onlineUsers st) (Str "u2") = Some (Registry.Handle "s2")
  ∧ alive failed.1 = false
  ∧ failed.2 = [UnhandledRejection
                  (sendmessage_document (Str "u1") (Str "u2") (Str "hi") 1)]
  ∧ (handle Throw failed.1 (CallUser (Str "u3") (Str "u2") (Str "sdp"))).2 = [].
Proof. vm_compute. repeat split; reflexivity. Qed.

(** C5 (amended). If the save of a sendmessage fails, the message is not
    forwarded, not stored, and the registry is unchanged. The handler does
    not catch the failure: it reports nothing to the sender and logs
    nothing itself, its rejection is left to the runtime. The process keeps
    running, with its other connections, exactly when the runtime only
    warns about unhandled rejections; under the `throw` mode it ends. *)
Theorem store_failure_drops_message mode (st : Server) (i : nat)
    (doc : Message) :
  alive st = true → awaiting st !! i = Some doc →
  let failed := handle mode st (SaveSettled i false) in
  failed.2 = [UnhandledRejection doc]
  ∧ forwards failed.2 = []
  ∧ onlineUsers failed.1 = onlineUsers st
  ∧ messages failed.1 = messages st
  ∧ awaiting failed.1 = delete i (awaiting st)
  ∧ alive failed.1 = match mode with Warn => true | Throw => false end.
Proof.
  intros Halive Hdoc failed. unfold failed, handle, settle.
  rewrite Halive, Hdoc. simpl. by destruct mode.
Qed.

Lemma store_failure_drops_message_witness :
  let st := (run Warn boot [Connection (mkSocket "s2" (Str "u2"));
                            SendMessage (Str "u1") (Str "u2") (Str "hi") 1]).1 in
  (handle Warn st (SaveSettled 0 false)).2
    = [UnhandledRejection (sendmessage_document (Str "u1") (Str "u2") (Str "hi") 1)]
  ∧ alive (handle Warn st (SaveSettled 0 false)).1 = true.
Proof.
  intros st.
  destruct (store_failure_drops_message Warn st 0
              (sendmessage_document (Str "u1") (Str "u2") (Str "hi") 1))
    as (Hacts & _ & _ & _ & _ & Halive).
  - vm_compute. reflexivity.
  - vm_compute. reflexivity.
  - split; [exact Hacts | exact Halive].
Defined.

(* --------------------------------------------------------------------- *)
(*  Schedules: what a whole run does                                      *)
(* --------------------------------------------------------------------- *)

(** Events that neither send a chat message nor settle a save. *)
Lemma observers_emit_if_online (users : gmap string string) (X : jsval)
    (name : string) (payload : jsval) :
  saves (emit_if_online users X name payload) = []
  ∧ rejected (emit_if_online users X name payload) = []
  ∧ (String.eqb name "receivemessage" = false →
     forwards (emit_if_online users X name payload) = []).
Proof.
  destruct (emit_if_online_cases users X name payload)
    as [-> | [(h & _ & _ & ->) | [(m & _ & ->) | [_ ->]]]];
    repeat split; try done.
  intros Hname. simpl. by rewrite Hname.
Qed.

Section Schedules.

Variable mode : rejection_mode.

Lemma run_cons (st : Server) (ev : event) (evs : list event) :
  run mode st (ev :: evs)
  = ((run mode (handle mode st ev).1 evs).1,
     (handle mode st ev).2 ++ (run mode (handle mode st ev).1 evs).2).
Proof.
  simpl. destruct (handle mode st ev) as [st1 acts1].
  simpl. by destruct (run mode st1 evs).
Qed.

Lemma run_dead (st : Server) (evs : list event) :
  alive st = false → run mode st evs = (st, []).
Proof.
  intros Hdead. induction evs as [|ev evs IH]; [reflexivity|].
  rewrite run_cons, handle_dead by done. simpl. by rewrite IH.
Qed.

Lemma handle_alive (st : Server) (ev : event) :
  alive (handle mode st ev).1 = true → alive st = true.
Proof.
  destruct (alive st) eqn:Hst; [done|].
  rewrite handle_dead by done. simpl. congruence.
Qed.

Lemma run_alive (evs : list event) :
  ∀ st, alive (run mode st evs).1 = true → alive st = true.
Proof.
  induction evs as [|ev evs IH]; intros st; [done|].
  rewrite run_cons. simpl. intros Hfinal.
  eapply handle_alive, IH, Hfinal.
Qed.

Lemma saves_app (acts1 acts2 : list action) :
  saves (acts1 ++ acts2) = saves acts1 ++ saves acts2.
Proof. apply omap_app. Qed.

Lemma forwards_app (acts1 acts2 : list action) :
  forwards (acts1 ++ acts2) = forwards acts1 ++ forwards acts2.
Proof. apply omap_app. Qed.

Lemma rejected_app (acts1 acts2 : list action) :
  rejected (acts1 ++ acts2) = rejected acts1 ++ rejected acts2.
Proof. apply omap_app. Qed.

Lemma sends_cons (ev : event) (evs : list event) :
  sends (ev :: evs) = sends [ev] ++ sends evs.
Proof. unfold sends. by rewrite <- omap_app. Qed.

(** A turn for an event that is neither a sendmessage nor the settling of
    a save leaves the suspended handlers and the store alone and concerns
    no chat message. *)
Lemma handle_quiet (st : Server) (ev : event) :
  match ev with SendMessage _ _ _ _ | SaveSettled _ _ => False | _ => True end →
  awaiting (handle mode st ev).1 = awaiting st
  ∧ messages (handle mode st ev).1 = messages st
  ∧ saves (handle mode st ev).2 = []
  ∧ forwards (handle mode st ev).2 = []
  ∧ rejected (handle mode st ev).2 = []
  ∧ sends [ev] = [].
Proof.
  intros Hev. unfold handle.
  destruct ev; try done; (destruct (alive st); [|done]); simpl;
    try (destruct (property_key (query_userId s)); by simpl);
    unfold listener, on_call_user, on_answer_call, on_ice_candidate,
      on_reject_call, on_end_call;
    match goal with
    | |- context [emit_if_online ?u ?x ?n ?p] =>
        destruct (observers_emit_if_online u x n p) as (Hs & Hr & Hf);
        rewrite Hs, Hr, (Hf eq_refl);
        by destruct (escaped (emit_if_online u x n p))
    end.
Qed.

Ltac quiet st :=
  let e := match goal with
           | |- context [handle _ st ?e] => e
           | _ : context [handle _ st ?e] |- _ => e
           end in
  destruct (handle_quiet st e I) as (Hqa & Hqm & Hqs & Hqf & Hqr & Hqe).

(** The turn that settles a save. *)
Lemma settle_resolved (st : Server) (i : nat) (doc : Message) :
  alive st = true → awaiting st !! i = Some doc →
  awaiting (handle mode st (SaveSettled i true)).1 = delete i (awaiting st)
  ∧ messages (handle mode st (SaveSettled i true)).1 = messages st ++ [doc]
  ∧ (handle mode st (SaveSettled i true)).2
    = sendmessage_resume (onlineUsers st) doc
  ∧ saves (handle mode st (SaveSettled i true)).2 = []
  ∧ rejected (handle mode st (SaveSettled i true)).2 = []
  ∧ (forwards (handle mode st (SaveSettled i true)).2 = []
     ∨ forwards (handle mode st (SaveSettled i true)).2
       = [receivemessage_payload doc]).
Proof.
  intros Halive Hdoc. unfold handle, settle. rewrite Halive, Hdoc. simpl.
  unfold sendmessage_resume.
  destruct (observers_emit_if_online (onlineUsers st) (receiver doc)
              "receivemessage" (receivemessage_payload doc)) as (Hs & Hr & _).
  repeat split; try done.
  destruct (emit_if_online_cases (onlineUsers st) (receiver doc)
              "receivemessage" (receivemessage_payload doc))
    as [-> | [(h & _ & _ & ->) | [(m & _ & ->) | [_ ->]]]];
    [by left | by right | by left | by left].
Qed.

Lemma settle_rejected (st : Server) (i : nat) (doc : Message) :
  alive st = true → awaiting st !! i = Some doc →
  handle mode st (SaveSettled i false)
  = ({| onlineUsers := onlineUsers st; awaiting := delete i (awaiting st);
        messages := messages st; alive := survives_rejection mode |},
     [UnhandledRejection doc]).
Proof.
  intros Halive Hdoc. unfold handle, settle. by rewrite Halive, Hdoc.
Qed.

Lemma settle_nothing (st : Server) (i : nat) (ok : bool) :
  awaiting st !! i = None → handle mode st (SaveSettled i ok) = (st, []).
Proof.
  intros Hdoc. unfold handle, settle. rewrite Hdoc. by destruct (alive st).
Qed.

Lemma handle_sendmessage (st : Server) (from to text : jsval) (now : nat) :
  alive st = true →
  handle mode st (SendMessage from to text now)
  = ({| onlineUsers := onlineUsers st;
        awaiting := awaiting st ++ [sendmessage_document from to text now];
        messages := messages st; alive := alive st |},
     [Save (sendmessage_document from to text now)]).
Proof. intros Halive. unfold handle. by rewrite Halive. Qed.

(** A turn issues one save for a sendmessage event and none otherwise. *)
Lemma saves_handle (st : Server) (ev : event) :
  alive st = true → saves (handle mode st ev).2 = sends [ev].
Proof.
  intros Halive. destruct ev;
    try (quiet st; by rewrite Hqs, Hqe).
  - by rewrite handle_sendmessage.
  - destruct (awaiting st !! i) as [doc|] eqn:Hdoc;
      [|by rewrite settle_nothing].
    destruct ok; [|by rewrite (settle_rejected st i doc)].
    by destruct (settle_resolved st i doc Halive Hdoc) as (_ & _ & _ & -> & _).
Qed.

Lemma saves_run (evs : list event) :
  ∀ st, alive (run mode st evs).1 = true →
        saves (run mode st evs).2 = sends evs.
Proof.
  induction evs as [|ev evs IH]; intros st; [reflexivity|].
  rewrite run_cons. simpl. intros Hfinal.
  rewrite saves_app, IH by done. rewrite saves_handle; [by rewrite <- sends_cons|].
  eapply handle_alive, run_alive, Hfinal.
Qed.

(** A receivemessage emitted in a turn belongs to a suspended handler. *)
Lemma handle_forward_origin (st : Server) (ev : event) (j : nat)
    (target : string) (payload : jsval) :
  (handle mode st ev).2 !! j = Some (Emit target "receivemessage" payload) →
  ∃ doc, doc ∈ awaiting st ∧ payload = receivemessage_payload doc.
Proof.
  intros Hj. assert (payload ∈ forwards (handle mode st ev).2) as Hin.
  { apply list_elem_of_lookup_2 in Hj. unfold forwards.
    apply list_elem_of_omap.
    by exists (Emit target "receivemessage" payload). }
  destruct (alive st) eqn:Halive;
    [|rewrite handle_dead in Hin by done; by apply not_elem_of_nil in Hin].
  destruct ev;
    try (quiet st; rewrite Hqf in Hin; by apply not_elem_of_nil in Hin).
  - rewrite handle_sendmessage in Hin by done. by apply not_elem_of_nil in Hin.
  - destruct (awaiting st !! i) as [doc|] eqn:Hdoc;
      [|rewrite settle_nothing in Hin by done; by apply not_elem_of_nil in Hin].
    destruct ok;
      [|rewrite (settle_rejected st i doc) in Hin by done;
        by apply not_elem_of_nil in Hin].
    destruct (settle_resolved st i doc Halive Hdoc)
      as (_ & _ & _ & _ & _ & [Hf | Hf]); rewrite Hf in Hin.
    + by apply not_elem_of_nil in Hin.
    + apply list_elem_of_singleton in Hin. exists doc.
      split; [by eapply list_elem_of_lookup_2 | done].
Qed.

(** A handler suspended after a turn was suspended before it, or the
    turn just issued its save. *)
Lemma handle_awaiting_origin (st : Server) (ev : event) (doc : Message) :
  doc ∈ awaiting (handle mode st ev).1 →
  doc ∈ awaiting st ∨ (handle mode st ev).2 = [Save doc].
Proof.
  destruct (alive st) eqn:Halive; [|rewrite handle_dead by done; by left].
  destruct ev;
    try (quiet st; rewrite Hqa; by left).
  - rewrite handle_sendmessage by done. simpl.
    rewrite elem_of_app, list_elem_of_singleton.
    intros [Hin | ->]; [by left | by right].
  - destruct (awaiting st !! i) as [d|] eqn:Hdoc;
      [|rewrite settle_nothing by done; by left].
    destruct ok.
    + destruct (settle_resolved st i d Halive Hdoc) as (-> & _).
      intros Hin. left. by eapply list_elem_of_delete_inv.
    + rewrite (settle_rejected st i d) by done. simpl.
      intros Hin. left. by eapply list_elem_of_delete_inv.
Qed.

Lemma forward_follows_save (evs : list event) :
  ∀ st j target payload,
    (run mode st evs).2 !! j = Some (Emit target "receivemessage" payload) →
    (∃ i doc, i < j ∧ (run mode st evs).2 !! i = Some (Save doc)
              ∧ payload = receivemessage_payload doc)
    ∨ (∃ doc, doc ∈ awaiting st ∧ payload = receivemessage_payload doc).
Proof.
  induction evs as [|ev evs IH]; intros st j target payload;
    [simpl; by rewrite lookup_nil|].
  rewrite run_cons. simpl.
  rewrite lookup_app_Some. intros [Hnow | [Hlen Hlater]].
  - right. by eapply handle_forward_origin.
  - apply IH in Hlater as [(i & doc & Hlt & Hsave & Hpay) | (doc & Hin & Hpay)].
    + left. exists (length (handle mode st ev).2 + i), doc.
      split; [lia|]. split; [|done].
      rewrite lookup_app_r by lia.
      by replace (length (handle mode st ev).2 + i - length (handle mode st ev).2)
        with i by lia.
    + apply handle_awaiting_origin in Hin as [Hin | Hnew].
      * right. by exists doc.
      * left. exists 0, doc. rewrite Hnew in Hlen |- *. simpl in Hlen.
        split; [lia|]. by split.
Qed.

(** One turn of a running process when saves settle oldest first: either
    nothing resumes (a sendmessage joins the suspended handlers at the
    end), or the oldest suspended handler resumes. *)
Lemma turn_in_order (st : Server) (ev : event) :
  alive st = true →
  match ev with SaveSettled i _ => i = 0 | _ => True end →
  (awaiting (handle mode st ev).1 = awaiting st ++ sends [ev]
   ∧ forwards (handle mode st ev).2 = []
   ∧ messages (handle mode st ev).1 = messages st)
  ∨ (∃ doc rest,
       awaiting st = doc :: rest
       ∧ awaiting (handle mode st ev).1 = rest
       ∧ sends [ev] = []
       ∧ (forwards (handle mode st ev).2 = []
          ∨ forwards (handle mode st ev).2 = [receivemessage_payload doc])
       ∧ (messages (handle mode st ev).1 = messages st
          ∨ messages (handle mode st ev).1 = messages st ++ [doc])).
Proof.
  intros Halive Hev. destruct ev;
    try (left; quiet st; rewrite Hqa, Hqm, Hqf, Hqe; by rewrite app_nil_r).
  - left. by rewrite handle_sendmessage.
  - simpl in Hev. subst i.
    destruct (awaiting st) as [|doc rest] eqn:Hawait.
    + left. rewrite settle_nothing by (by rewrite Hawait). simpl.
      by rewrite Hawait.
    + right. exists doc, rest. split; [reflexivity|].
      assert (awaiting st !! 0 = Some doc) as Hdoc by (by rewrite Hawait).
      destruct ok.
      * destruct (settle_resolved st 0 doc Halive Hdoc)
          as (-> & -> & _ & _ & _ & Hf).
        rewrite Hawait. repeat split; [done | by right].
      * rewrite (settle_rejected st 0 doc) by done. simpl. rewrite Hawait.
        repeat split; by left.
Qed.

Lemma run_in_order (evs : list event) :
  ∀ st, settles_in_order evs →
    forwards (run mode st evs).2
      `sublist_of` (receivemessage_payload <$> (awaiting st ++ sends evs))
    ∧ ∃ stored, messages (run mode st evs).1 = messages st ++ stored
               ∧ stored `sublist_of` (awaiting st ++ sends evs).
Proof.
  induction evs as [|ev evs IH]; intros st Hfifo.
  { simpl. split; [apply sublist_nil_l|].
    exists []. split; [by rewrite app_nil_r | apply sublist_nil_l]. }
  destruct (alive st) eqn:Halive.
  2:{ rewrite run_dead by done. simpl. split; [apply sublist_nil_l|].
      exists []. split; [by rewrite app_nil_r | apply sublist_nil_l]. }
  apply Forall_cons in Hfifo as [Hev Hfifo].
  rewrite run_cons. cbn [fst snd].
  destruct (IH (handle mode st ev).1 Hfifo) as (Hfwd & stored & Hmsgs & Hstored).
  rewrite forwards_app, sends_cons.
  destruct (turn_in_order st ev Halive Hev)
    as [(Hawait & Hnone & Hkeep)
       | (doc & rest & Hawait & Hrest & Hnosend & Hone & Hstore)].
  - rewrite Hawait, <- app_assoc in Hfwd, Hstored.
    rewrite Hnone. simpl. split; [exact Hfwd|].
    exists stored. by rewrite <- Hkeep.
  - rewrite Hrest in Hfwd, Hstored. rewrite Hawait, Hnosend. simpl.
    split.
    + destruct Hone as [-> | ->]; simpl;
        [by apply sublist_cons | by apply sublist_skip].
    + destruct Hstore as [Hsame | Hmore].
      * exists stored. rewrite <- Hsame. split; [done | by apply sublist_cons].
      * exists (doc :: stored). rewrite Hmsgs, Hmore, <- app_assoc.
        split; [done | by apply sublist_skip].
Qed.

End Schedules.

Ltac quiet_turn mode st :=
  let e := match goal with
           | |- context [handle _ st ?e] => e
           | _ : context [handle _ st ?e] |- _ => e
           end in
  destruct (handle_quiet mode st e I) as (Hqa & Hqm & Hqs & Hqf & Hqr & Hqe).

Section Timing.

Variable mode : rejection_mode.

Lemma handle_connection (st : Server) (s : Socket) (k : string) :
  alive st = true → property_key (query_userId s) = Some k →
  handle mode st (Connection s)
  = (with_users st (on_connection (onlineUsers st) s), []).
Proof. intros Halive Hk. unfold handle. by rewrite Halive, Hk. Qed.

Lemma handle_disconnect (st : Server) (s : Socket) (k : string) :
  alive st = true → property_key (query_userId s) = Some k →
  handle mode st (Disconnect s)
  = (with_users st (on_disconnect (onlineUsers st) s), []).
Proof. intros Halive Hk. unfold handle. by rewrite Halive, Hk. Qed.

Lemma handle_settle_last (st : Server) (doc : Message)
    (users : gmap string string) :
  alive st = true →
  (handle mode
     {| onlineUsers := users; awaiting := awaiting st ++ [doc];
        messages := messages st; alive := alive st |}
     (SaveSettled (length (awaiting st)) true)).2
  = sendmessage_resume users doc
  ∧ messages
      (handle mode
         {| onlineUsers := users; awaiting := awaiting st ++ [doc];
            messages := messages st; alive := alive st |}
         (SaveSettled (length (awaiting st)) true)).1
    = messages st ++ [doc].
Proof.
  intros Halive. unfold handle, settle. simpl. rewrite Halive.
  by rewrite list_lookup_middle.
Qed.

End Timing.

(* --------------------------------------------------------------------- *)
(*  C2, C8, C10 : persistence first, order, self-send                     *)
(* --------------------------------------------------------------------- *)

(** C2. For all (sender, receiver, text), the turn that handles a
    sendmessage event issues exactly one save, of the document with that
    sender, receiver and text, and does nothing else, whatever the
    registry holds (so also when the receiver has no entry). Over a whole
    run that the process survives, the saves issued are exactly the
    documents of the sendmessage events, one each and in their order; the
    document enters the store once, when its save resolves; and every
    receivemessage {sender, text} that is emitted comes after the save of
    a document with that sender and text. *)
Theorem sendmessage_saves_once_before_forwarding mode :
  (∀ st from to body now,
     alive st = true →
     (handle mode st (SendMessage from to body now)).2
       = [Save (mkMessage from to body now)])
  ∧ (∀ st i doc,
       alive st = true → awaiting st !! i = Some doc →
       saves (handle mode st (SaveSettled i true)).2 = []
       ∧ messages (handle mode st (SaveSettled i true)).1 = messages st ++ [doc]
       ∧ awaiting (handle mode st (SaveSettled i true)).1 = delete i (awaiting st))
  ∧ (∀ st evs,
       alive (run mode st evs).1 = true →
       omap (λ a, match a with Save doc => Some doc | _ => None end)
         (run mode st evs).2
       = omap (λ ev, match ev with
                     | SendMessage from to body now =>
                         Some (mkMessage from to body now)
                     | _ => None
                     end) evs)
  ∧ (∀ evs j target from body,
       (run mode boot evs).2 !! j
         = Some (Emit target "receivemessage"
                   (Obj [("sender", from); ("text", body)])) →
       ∃ i to now, i < j
         ∧ (run mode boot evs).2 !! i = Some (Save (mkMessage from to body now))).
Proof.
  split; [|split; [|split]].
  - intros st from to body now Halive. by rewrite handle_sendmessage.
  - intros st i doc Halive Hdoc.
    by destruct (settle_resolved mode st i doc Halive Hdoc)
      as (-> & -> & _ & -> & _).
  - intros st evs. apply saves_run.
  - intros evs j target from body Hemit.
    destruct (forward_follows_save mode evs boot j target _ Hemit)
      as [(i & doc & Hlt & Hsave & Hpay) | (doc & Hin & _)].
    + destruct doc as [s r t n]. injection Hpay as -> ->.
      by exists i, r, n.
    + simpl in Hin. by apply not_elem_of_nil in Hin.
Qed.

Lemma sendmessage_saves_once_before_forwarding_witness :
  let a := Str "5f1d7f3e9c2a4b0012345678" in
  let b := Str "5f1d7f3e9c2a4b0012345699" in
  let evs := [Connection (mkSocket "s2" b); SendMessage a b (Str "hi") 4;
              SaveSettled 0 true] in
  (handle Throw boot (SendMessage a b (Str "hi") 4)).2
    = [Save (mkMessage a b (Str "hi") 4)]
  ∧ (run Throw boot evs).2
    = [Save (mkMessage a b (Str "hi") 4);
       Emit "s2" "receivemessage" (Obj [("sender", a); ("text", Str "hi")])]
  ∧ ∃ i to now, i < 1
      ∧ (run Throw boot evs).2 !! i = Some (Save (mkMessage a to (Str "hi") now)).
Proof.
  intros a b evs.
  destruct (sendmessage_saves_once_before_forwarding Throw)
    as (Honce & _ & _ & Hbefore).
  split; [|split].
  - apply Honce. reflexivity.
  - vm_compute. reflexivity.
  - apply (Hbefore evs 1 "s2"). vm_compute. reflexivity.
Defined.

(** C8 (as stated, fails). "u1" sends "a" and then "b" to the connected
    "u2"; the store settles the second save first. "b" is stored and
    forwarded before "a". *)
Lemma later_message_overtakes :
  let evs := [Connection (mkSocket "s2" (Str "u2"));
              SendMessage (Str "u1") (Str "u2") (Str "a") 1;
              SendMessage (Str "u1") (Str "u2") (Str "b") 2;
              SaveSettled 1 true;
              SaveSettled 0 true] in
  text <$> sends evs = [Str "a"; Str "b"]
  ∧ forwards (run Throw boot evs).2
    = [Obj [("sender", Str "u1"); ("text", Str "b")];
       Obj [("sender", Str "u1"); ("text", Str "a")]]
  ∧ text <$> messages (run Throw boot evs).1 = [Str "b"; Str "a"].
Proof. vm_compute. repeat split; reflexivity. Qed.

(** C8 (amended). The saves are issued in the order the sendmessage events
    are invoked. Each message is stored and forwarded when its own save
    settles: if the store settles saves in the order they were issued,
    the messages stored and the messages forwarded follow the order of the
    sendmessage events (each is a subsequence of it), for every sender. *)
Theorem sendmessage_order mode (evs : list event) :
  (alive (run mode boot evs).1 = true →
     saves (run mode boot evs).2 = sends evs)
  ∧ (settles_in_order evs →
     forwards (run mode boot evs).2
       `sublist_of` (receivemessage_payload <$> sends evs)
     ∧ messages (run mode boot evs).1 `sublist_of` sends evs).
Proof.
  split; [apply saves_run|].
  intros Hfifo.
  destruct (run_in_order mode evs boot Hfifo) as (Hfwd & stored & Hmsgs & Hstored).
  simpl in Hfwd, Hmsgs, Hstored. split; [exact Hfwd|].
  by rewrite Hmsgs.
Qed.

Lemma sendmessage_order_witness :
  let evs := [Connection (mkSocket "s2" (Str "u2"));
              SendMessage (Str "u1") (Str "u2") (Str "a") 1;
              SendMessage (Str "u1") (Str "u2") (Str "b") 2;
              SaveSettled 0 true;
              SaveSettled 0 true] in
  saves (run Warn boot evs).2 = sends evs
  ∧ forwards (run Warn boot evs).2
      `sublist_of` (receivemessage_payload <$> sends evs).
Proof.
  intros evs.
  destruct (sendmessage_order Warn evs) as [Hsaves Hfifo].
  split.
  - apply Hsaves. vm_compute. reflexivity.
  - apply Hfifo. unfold settles_in_order, evs.
    repeat constructor.
Defined.

(** C10. A sendmessage whose receiver equals its sender is not special.
    Once a socket has connected under that identity - other users may
    connect after it - the save of the document is issued, and when it
    resolves the document is in the store and one receivemessage
    {sender, text} is emitted to that socket, the sender's own connection,
    and to no other. *)
Theorem self_send_is_forwarded mode (st : Server) (s other : Socket)
    (who text : jsval) (now : nat) (k k' : string) :
  alive st = true → valid_socket s →
  property_key who = Some k → k ≠ "__proto__" →
  property_key (query_userId s) = Some k →
  property_key (query_userId other) = Some k' → k' ≠ k →
  let evs := [Connection s; Connection other; SendMessage who who text now;
              SaveSettled (length (awaiting st)) true] in
  (run mode st evs).2
    = [Save (mkMessage who who text now);
       Emit (id s) "receivemessage" (Obj [("sender", who); ("text", text)])]
  ∧ messages (run mode st evs).1 = messages st ++ [mkMessage who who text now].
Proof.
  intros Halive Hvalid Hk Hne Hks Hko Hdiff evs. unfold evs.
  rewrite !run_cons.
  rewrite (handle_connection mode st s k) by done. cbn [fst snd].
  rewrite (handle_connection mode _ other k') by done. cbn [fst snd].
  rewrite handle_sendmessage by done. cbn [fst snd run].
  unfold with_users. cbn [onlineUsers awaiting messages alive].
  destruct (handle_settle_last mode st (sendmessage_document who who text now)
              (on_connection (on_connection (onlineUsers st) s) other) Halive)
    as [-> ->].
  rewrite !app_nil_r. split; [|done]. simpl. f_equal.
  unfold sendmessage_resume. simpl.
  apply emit_if_online_hit; [|done].
  unfold on_connection at 1. rewrite lookup_register_other by congruence.
  by eapply lookup_register_key.
Qed.

Lemma self_send_is_forwarded_witness :
  let a := Str "5f1d7f3e9c2a4b0012345678" in
  let b := Str "5f1d7f3e9c2a4b0012345699" in
  (run Warn boot [Connection (mkSocket "s1" a); Connection (mkSocket "s2" b);
                  SendMessage a a (Str "note") 5; SaveSettled 0 true]).2
  = [Save (mkMessage a a (Str "note") 5);
     Emit "s1" "receivemessage" (Obj [("sender", a); ("text", Str "note")])].
Proof.
  intros a b.
  apply (self_send_is_forwarded Warn boot (mkSocket "s1" a) (mkSocket "s2" b)
           a (Str "note") 5 "5f1d7f3e9c2a4b0012345678"
           "5f1d7f3e9c2a4b0012345699").
  - reflexivity.
  - unfold valid_socket. simpl. discriminate.
  - reflexivity.
  - discriminate.
  - reflexivity.
  - reflexivity.
  - discriminate.
Defined.

(* --------------------------------------------------------------------- *)
(*  Further properties of the relay                                       *)
(* --------------------------------------------------------------------- *)

(** A socket that connects under an identity nobody holds and then
    disconnects leaves the registry exactly as it found it; whatever was
    registered before, the identity has no entry afterwards. *)
Theorem connect_disconnect_round_trip (users : gmap string string)
    (s : Socket) :
  on_disconnect (on_connection users s) s
    = match property_key (query_userId s) with
      | Some k => delete k users
      | None => users
      end
  ∧ (∀ k, property_key (query_userId s) = Some k → users !! k = None →
     on_disconnect (on_connection users s) s = users).
Proof.
  assert (on_disconnect (on_connection users s) s
          = match property_key (query_userId s) with
            | Some k => delete k users
            | None => users
            end) as Hround.
  { unfold on_disconnect, on_connection, Registry.unregister,
      Registry.register.
    destruct (property_key (query_userId s)) as [k|]; [|done].
    destruct (String.eqb k "__proto__"); [done|]. apply delete_insert_eq. }
  split; [exact Hround|].
  intros k Hk Hfree. rewrite Hround, Hk. by apply delete_id.
Qed.

Lemma connect_disconnect_round_trip_witness :
  let users := on_connection ∅ (mkSocket "s2" (Str "u2")) in
  let s := mkSocket "s1" (Str "u1") in
  on_disconnect (on_connection users s) s = users.
Proof.
  intros users s.
  destruct (connect_disconnect_round_trip users s) as [_ Hfree].
  apply (Hfree "u1"); [reflexivity|]. vm_compute. reflexivity.
Defined.

(** The disconnect of a socket whose identity has no entry changes
    nothing, and a second disconnect for the same identity changes nothing
    more: `delete` on a missing key is not an error. *)
Theorem disconnect_without_entry_is_noop (users : gmap string string)
    (s s' : Socket) :
  (∀ k, property_key (query_userId s) = Some k → users !! k = None →
   on_disconnect users s = users)
  ∧ (property_key (query_userId s') = property_key (query_userId s) →
     on_disconnect (on_disconnect users s) s' = on_disconnect users s).
Proof.
  unfold on_disconnect, Registry.unregister. split.
  - intros k -> Hfree. by apply delete_id.
  - intros ->. destruct (property_key (query_userId s)); [|done].
    apply delete_delete_eq.
Qed.

Lemma disconnect_without_entry_is_noop_witness :
  let users := on_connection ∅ (mkSocket "s2" (Str "u2")) in
  on_disconnect users (mkSocket "s1" (Str "u1")) = users
  ∧ on_disconnect (on_disconnect users (mkSocket "s2" (Str "u2")))
      (mkSocket "s3" (Str "u2"))
    = on_disconnect users (mkSocket "s2" (Str "u2")).
Proof.
  intros users. split.
  - destruct (disconnect_without_entry_is_noop users
                (mkSocket "s1" (Str "u1")) (mkSocket "s1" (Str "u1")))
      as [Hnone _].
    apply (Hnone "u1"); [reflexivity|]. vm_compute. reflexivity.
  - destruct (disconnect_without_entry_is_noop users
                (mkSocket "s2" (Str "u2")) (mkSocket "s3" (Str "u2")))
      as [_ Htwice].
    apply Htwice. reflexivity.
Defined.

Section RelayFacts.

Variable mode : rejection_mode.

Lemma lookup_member (users : gmap string string) (X : jsval) (m : string) :
  Registry.lookup users X = Some (Registry.Member m) →
  inherited m = true ∧ users !! m = None.
Proof.
  unfold Registry.lookup. destruct (property_key X) as [k|]; [|done].
  destruct (users !! k) eqn:Hk; [done|].
  destruct (inherited k) eqn:Hi; [|done]. by intros [= <-].
Qed.

Lemma lookup_handle (users : gmap string string) (X : jsval) (h : string) :
  Registry.lookup users X = Some (Registry.Handle h) →
  ∃ k, property_key X = Some k ∧ users !! k = Some h.
Proof.
  unfold Registry.lookup. destruct (property_key X) as [k|]; [|done].
  destruct (users !! k) eqn:Hk; [|by destruct (inherited k)].
  intros [= <-]. by exists k.
Qed.

(** What a turn can do: nothing, one save, one rejection, one emit to a
    handle that the registry holds, one emit to an inherited member, or
    one exception. *)
Lemma handle_actions (st : Server) (ev : event) :
  (handle mode st ev).2 = []
  ∨ (∃ doc, (handle mode st ev).2 = [Save doc])
  ∨ (∃ doc, (handle mode st ev).2 = [UnhandledRejection doc])
  ∨ (∃ k h name payload,
       (handle mode st ev).2 = [Emit h name payload]
       ∧ h ≠ "" ∧ onlineUsers st !! k = Some h)
  ∨ (∃ m name payload,
       (handle mode st ev).2 = [EmitToMember m name payload]
       ∧ inherited m = true ∧ onlineUsers st !! m = None)
  ∨ ((handle mode st ev).2 = [Thrown]
     ∧ (alive (handle mode st ev).1 = false
        ∨ alive (handle mode st ev).1 = survives_rejection mode)).
Proof.
  assert (∀ users X name payload,
    users = onlineUsers st →
    emit_if_online users X name payload = []
    ∨ (∃ k h n p, emit_if_online users X name payload = [Emit h n p]
                  ∧ h ≠ "" ∧ onlineUsers st !! k = Some h)
    ∨ (∃ m n p, emit_if_online users X name payload = [EmitToMember m n p]
                ∧ inherited m = true ∧ onlineUsers st !! m = None)
    ∨ emit_if_online users X name payload = [Thrown]) as Hemit.
  { intros users X name payload ->.
    destruct (emit_if_online_cases (onlineUsers st) X name payload)
      as [-> | [(h & Hl & Hne & ->) | [(m & Hl & ->) | [_ ->]]]].
    - by left.
    - right; left. apply lookup_handle in Hl as (k & _ & Hk).
      by exists k, h, name, payload.
    - right; right; left. apply lookup_member in Hl as [Hi Hm].
      by exists m, name, payload.
    - by right; right; right. }
  unfold handle. destruct (alive st); [|by left].
  destruct ev; simpl;
    try (destruct (property_key (query_userId s));
         [by left | right; right; right; right; right; simpl; by auto]);
    try (unfold listener, on_call_user, on_answer_call, on_ice_candidate,
           on_reject_call, on_end_call;
         match goal with
         | |- context [emit_if_online ?u ?x ?n ?p] =>
             destruct (Hemit u x n p eq_refl)
               as [-> | [(k & h & n' & p' & -> & ? & ?)
                  | [(m & n' & p' & -> & ? & ?) | ->]]]
         end; simpl;
         [by left
         | right; right; right; left; by exists k, h, n', p'
         | right; right; right; right; left; by exists m, n', p'
         | right; right; right; right; right; by auto]).
  - right; left. by eexists.
  - unfold settle. destruct (awaiting st !! i) as [doc|]; [|by left].
    destruct ok; simpl; [|right; right; left; by eexists].
    unfold sendmessage_resume.
    destruct (Hemit (onlineUsers st) (receiver doc) "receivemessage"
                (receivemessage_payload doc) eq_refl)
      as [-> | [(k & h & n' & p' & -> & ? & ?)
         | [(m & n' & p' & -> & ? & ?) | ->]]]; simpl;
      [by left
      | right; right; right; left; by exists k, h, n', p'
      | right; right; right; right; left; by exists m, n', p'
      | right; right; right; right; right; by auto].
Qed.

Lemma run_emit_origin (evs : list event) :
  ∀ st target name payload,
    Emit target name payload ∈ (run mode st evs).2 →
    (∃ k, onlineUsers st !! k = Some target)
    ∨ (∃ s, Connection s ∈ evs ∧ id s = target).
Proof.
  induction evs as [|ev evs IH]; intros st target name payload.
  { simpl. intros Hin. by apply not_elem_of_nil in Hin. }
  rewrite run_cons. cbn [fst snd]. rewrite elem_of_app. intros [Hnow | Hlater].
  - left.
    destruct (handle_actions st ev)
      as [Hacts | [(doc & Hacts) | [(doc & Hacts)
         | [(k & h & n & p & Hacts & _ & Hl)
         | [(m & n & p & Hacts & _) | [Hacts _]]]]]];
      rewrite Hacts in Hnow;
      try (by apply not_elem_of_nil in Hnow);
      try (apply list_elem_of_singleton in Hnow; discriminate).
    apply list_elem_of_singleton in Hnow. injection Hnow as -> _ _.
    by exists k.
  - apply IH in Hlater as [(k & Hk) | (s & Hin & Hid)].
    + apply handle_registry_origin in Hk as [Hk | (s & -> & Hid)].
      * left. by exists k.
      * right. exists s. split; [apply list_elem_of_here | done].
    + right. exists s. split; [by apply list_elem_of_further | done].
Qed.

End RelayFacts.

(** A turn never fans out: whatever the state and the event, it performs
    at most one action. An emit to a socket id goes to a non-empty handle
    that the registry holds at that moment; the only other emit goes to a
    member of Object.prototype, for a name that has no entry of its own. *)
Theorem turn_emits_at_most_once mode (st : Server) (ev : event) :
  length (handle mode st ev).2 ≤ 1
  ∧ (∀ target name payload,
      Emit target name payload ∈ (handle mode st ev).2 →
      target ≠ "" ∧ ∃ k, onlineUsers st !! k = Some target)
  ∧ (∀ member name payload,
      EmitToMember member name payload ∈ (handle mode st ev).2 →
      inherited member = true ∧ onlineUsers st !! member = None).
Proof.
  destruct (handle_actions mode st ev)
    as [Hacts | [(doc & Hacts) | [(doc & Hacts)
       | [(k & h & n & p & Hacts & Hne & Hl)
       | [(m & n & p & Hacts & Hi & Hm) | [Hacts _]]]]]];
    rewrite Hacts; (split; [simpl; lia|]); split;
    intros x name payload Hin;
    try (by apply not_elem_of_nil in Hin);
    try (apply list_elem_of_singleton in Hin; discriminate).
  - apply list_elem_of_singleton in Hin. injection Hin as -> _ _.
    split; [done|]. by exists k.
  - apply list_elem_of_singleton in Hin. by injection Hin as -> _ _.
Qed.

Lemma turn_emits_at_most_once_witness :
  let st := (handle Throw boot (Connection (mkSocket "s2" (Str "u2")))).1 in
  (∃ k, onlineUsers st !! k = Some "s2")
  ∧ inherited "valueOf" = true.
Proof.
  intros st.
  destruct (turn_emits_at_most_once Throw st
              (CallUser (Str "u1") (Str "u2") (Str "sdp"))) as (_ & Hemit & _).
  destruct (turn_emits_at_most_once Throw st
              (EndCall (Str "u1") (Str "valueOf"))) as (_ & _ & Hmember).
  split.
  - apply (Hemit "s2" "incoming-call"
             (Obj [("from", Str "u1"); ("offer", Str "sdp")])).
    vm_compute. apply list_elem_of_here.
  - apply (Hmember "valueOf" "call-ended" (Obj [("from", Str "u1")])).
    vm_compute. apply list_elem_of_here.
Defined.

(** Over a whole run from start-up, every event that is emitted to a
    socket id is addressed to the id of a socket that connected during the
    run: the relay never writes to a handle it was not given. Every other
    emit is addressed to a member of Object.prototype, reached through its
    name. *)
Theorem emits_only_to_connected_sockets mode (evs : list event)
    (target name : string) (payload : jsval) :
  (Emit target name payload ∈ (run mode boot evs).2 →
   ∃ s, Connection s ∈ evs ∧ id s = target)
  ∧ (EmitToMember target name payload ∈ (run mode boot evs).2 →
     inherited target = true).
Proof.
  split.
  - intros Hin.
    destruct (run_emit_origin mode evs boot target name payload Hin)
      as [(k & Hk) | Hconn]; [|exact Hconn].
    simpl in Hk. by rewrite lookup_empty in Hk.
  - generalize boot. induction evs as [|ev evs IH]; intros st.
    { simpl. intros Hin. by apply not_elem_of_nil in Hin. }
    rewrite run_cons. cbn [fst snd]. rewrite elem_of_app.
    intros [Hnow | Hlater]; [|by eapply IH].
    destruct (handle_actions mode st ev)
      as [Hacts | [(doc & Hacts) | [(doc & Hacts)
         | [(k & h & n & p & Hacts & _)
         | [(m & n & p & Hacts & Hi & _) | [Hacts _]]]]]];
      rewrite Hacts in Hnow;
      try (by apply not_elem_of_nil in Hnow);
      try (apply list_elem_of_singleton in Hnow; discriminate).
    apply list_elem_of_singleton in Hnow. by injection Hnow as -> _ _.
Qed.

Lemma emits_only_to_connected_sockets_witness :
  let evs := [Connection (mkSocket "s2" (Str "u2"));
              EndCall (Str "u1") (Str "u2")] in
  ∃ s, Connection s ∈ evs ∧ id s = "s2".
Proof.
  intros evs.
  destruct (emits_only_to_connected_sockets Throw evs "s2" "call-ended"
              (Obj [("from", Str "u1")])) as [Hsocket _].
  apply Hsocket. vm_compute. apply list_elem_of_here.
Defined.

Section Accounting.

Variable mode : rejection_mode.

(** One turn of a running process moves documents between the three
    places a sendmessage can be: suspended, stored, rejected. *)
Lemma turn_accounts (st : Server) (ev : event) :
  alive st = true →
  messages (handle mode st ev).1 ++ rejected (handle mode st ev).2
    ++ awaiting (handle mode st ev).1
  ≡ₚ messages st ++ awaiting st ++ sends [ev].
Proof.
  intros Halive. destruct ev;
    try (quiet_turn mode st; rewrite Hqa, Hqm, Hqr, Hqe; simpl;
         by rewrite app_nil_r).
  - by rewrite handle_sendmessage.
  - simpl. rewrite app_nil_r.
    destruct (awaiting st !! i) as [doc|] eqn:Hdoc;
      [|by rewrite settle_nothing].
    pose proof (delete_Permutation _ _ _ Hdoc) as Hperm.
    destruct ok.
    + destruct (settle_resolved mode st i doc Halive Hdoc)
        as (-> & -> & _ & _ & -> & _).
      rewrite <- app_assoc. simpl. by apply Permutation_app_head.
    + rewrite (settle_rejected mode st i doc) by done. simpl.
      by apply Permutation_app_head.
Qed.

Lemma run_accounts (evs : list event) :
  ∀ st, alive (run mode st evs).1 = true →
    messages (run mode st evs).1 ++ rejected (run mode st evs).2
      ++ awaiting (run mode st evs).1
    ≡ₚ messages st ++ awaiting st ++ sends evs.
Proof.
  induction evs as [|ev evs IH]; intros st.
  { simpl. by rewrite app_nil_r. }
  rewrite run_cons. cbn [fst snd]. intros Hfinal.
  assert (alive st = true) as Halive
    by (eapply handle_alive, run_alive, Hfinal).
  rewrite rejected_app, sends_cons, <- (app_assoc (rejected _)).
  rewrite Permutation_app_swap_app, (IH _ Hfinal).
  rewrite Permutation_app_swap_app, !app_assoc.
  apply Permutation_app; [|reflexivity].
  rewrite <- !app_assoc. by apply turn_accounts.
Qed.

Lemma run_never_invents (evs : list event) :
  ∀ st,
    messages (run mode st evs).1 ++ rejected (run mode st evs).2
      ++ awaiting (run mode st evs).1
    ⊆+ messages st ++ awaiting st ++ sends evs.
Proof.
  induction evs as [|ev evs IH]; intros st.
  { simpl. by rewrite app_nil_r. }
  destruct (alive st) eqn:Halive.
  2:{ rewrite run_dead by done. simpl. rewrite app_assoc.
      by apply submseteq_inserts_r. }
  rewrite run_cons. cbn [fst snd].
  rewrite rejected_app, sends_cons, <- (app_assoc (rejected _)).
  rewrite Permutation_app_swap_app.
  etrans; [apply submseteq_skips_l, IH|].
  rewrite Permutation_app_swap_app, !app_assoc.
  apply submseteq_skips_r. rewrite <- !app_assoc.
  by apply Permutation_submseteq, turn_accounts.
Qed.

(** A message is forwarded only in the turn that stores it. *)
Lemma turn_forwards_stored (st : Server) (ev : event) :
  ∃ stored, messages (handle mode st ev).1 = messages st ++ stored
            ∧ forwards (handle mode st ev).2
                `sublist_of` (receivemessage_payload <$> stored).
Proof.
  destruct (alive st) eqn:Halive;
    [|rewrite handle_dead by done; exists []; simpl; by rewrite app_nil_r].
  destruct ev;
    try (quiet_turn mode st; rewrite Hqm, Hqf; exists [];
         by rewrite app_nil_r).
  - rewrite handle_sendmessage by done. exists []. simpl. by rewrite app_nil_r.
  - destruct (awaiting st !! i) as [doc|] eqn:Hdoc;
      [|rewrite settle_nothing by done; exists []; simpl; by rewrite app_nil_r].
    destruct ok.
    + destruct (settle_resolved mode st i doc Halive Hdoc)
        as (_ & -> & _ & _ & _ & Hf).
      exists [doc]. split; [done|].
      destruct Hf as [-> | ->]; simpl; [apply sublist_nil_l | reflexivity].
    + rewrite (settle_rejected mode st i doc) by done.
      exists []. simpl. by rewrite app_nil_r.
Qed.

Lemma run_forwards_stored (evs : list event) :
  ∀ st, ∃ stored,
    messages (run mode st evs).1 = messages st ++ stored
    ∧ forwards (run mode st evs).2
        `sublist_of` (receivemessage_payload <$> stored).
Proof.
  induction evs as [|ev evs IH]; intros st.
  { exists []. simpl. by rewrite app_nil_r. }
  rewrite run_cons. cbn [fst snd].
  destruct (turn_forwards_stored st ev) as (stored1 & Hm1 & Hf1).
  destruct (IH (handle mode st ev).1) as (stored2 & Hm2 & Hf2).
  exists (stored1 ++ stored2). split.
  - by rewrite Hm2, Hm1, app_assoc.
  - rewrite forwards_app, fmap_app. by apply sublist_app.
Qed.


End Accounting.

(** No sendmessage is lost or duplicated. After any run from start-up,
    the documents stored, rejected and still suspended are, together, among
    the documents of the sendmessage events, each at most as often as it
    was sent; if the process survived the run they are exactly those
    documents. *)
Theorem every_send_accounted_for mode (evs : list event) :
  let final := (run mode boot evs).1 in
  let trace := (run mode boot evs).2 in
  messages final ++ rejected trace ++ awaiting final ⊆+ sends evs
  ∧ (alive final = true →
     messages final ++ rejected trace ++ awaiting final ≡ₚ sends evs).
Proof.
  split.
  - apply (run_never_invents mode evs boot).
  - intros Hfinal. by apply (run_accounts mode evs boot).
Qed.

Lemma every_send_accounted_for_witness :
  let evs := [SendMessage (Str "u1") (Str "u2") (Str "a") 1;
              SendMessage (Str "u1") (Str "u2") (Str "b") 2;
              SendMessage (Str "u2") (Str "u1") (Str "c") 3;
              SaveSettled 1 false;
              SaveSettled 0 true] in
  messages (run Warn boot evs).1 ++ rejected (run Warn boot evs).2
    ++ awaiting (run Warn boot evs).1
  ≡ₚ sends evs.
Proof.
  intros evs.
  apply (every_send_accounted_for Warn evs). vm_compute. reflexivity.
Defined.

(** A message is forwarded only if its save succeeded: after any run from
    start-up, the receivemessage payloads emitted are a subsequence of the
    payloads of the documents in the store, in the order they were
    stored. *)
Theorem forwarded_only_if_stored mode (evs : list event) :
  forwards (run mode boot evs).2
    `sublist_of` (receivemessage_payload <$> messages (run mode boot evs).1).
Proof.
  destruct (run_forwards_stored mode evs boot) as (stored & Hm & Hf).
  simpl in Hm. by rewrite Hm.
Qed.



Lemma castable_key (v : jsval) :
  casts_to_ObjectId v = true →
  ∃ k, property_key v = Some k ∧ inherited k = false ∧ k ≠ "__proto__".
Proof.
  destruct v as [|s|fields]; simpl; [| |discriminate].
  - intros _. exists "undefined". by repeat split.
  - intros Hhex. exists s. split; [done|].
    assert (inherited s = false) as Hi.
    { destruct (inherited s) eqn:Hi; [|done].
      unfold inherited in Hi. apply existsb_exists in Hi as (x & Hx & Heq).
      apply String.eqb_eq in Heq. subst x. simpl in Hx.
      repeat (destruct Hx as [<- | Hx]; [by vm_compute in Hhex|]).
      destruct Hx. }
    split; [done|]. intros ->. by vm_compute in Hi.
Qed.

(** A connection is routable as soon as it is made and not a moment
    longer than its entry lives: a call addressed to the identity of a
    socket that just connected - any identity but "__proto__" - goes to
    that socket, whoever held the identity before; once that socket has
    disconnected the same call goes to no socket: nowhere, or, for a name
    that Object.prototype defines, to that inherited member. *)
Theorem connection_is_routable_at_once mode (st : Server) (s : Socket)
    (from to offer : jsval) (k : string) :
  alive st = true → valid_socket s →
  property_key (query_userId s) = Some k → k ≠ "__proto__" →
  property_key to = Some k →
  let payload := Obj [("from", from); ("offer", offer)] in
  (run mode st [Connection s; CallUser from to offer]).2
    = [Emit (id s) "incoming-call" payload]
  ∧ (run mode st [Connection s; Disconnect s; CallUser from to offer]).2
    = if inherited k then [EmitToMember k "incoming-call" payload] else [].
Proof.
  intros Halive Hvalid Hks Hne Hk payload.
  assert (∀ st', alive st' = true →
            handle mode st' (CallUser from to offer)
            = listener st' (on_call_user (onlineUsers st') from to offer))
    as Hcall by (intros st' Hst'; unfold handle; by rewrite Hst').
  split.
  - rewrite !run_cons, (handle_connection mode st s k) by done.
    cbn [fst snd run]. rewrite Hcall by done. unfold listener. cbn [fst snd].
    rewrite app_nil_r. unfold on_call_user. apply emit_if_online_hit; [|done].
    by eapply lookup_register_key.
  - rewrite !run_cons, (handle_connection mode st s k) by done.
    cbn [fst snd run].
    rewrite (handle_disconnect mode _ s k) by done. cbn [fst snd].
    rewrite Hcall by done. unfold listener. cbn [fst snd].
    rewrite app_nil_r. simpl. unfold on_call_user, emit_if_online. rewrite Hk.
    unfold Registry.lookup, on_disconnect, Registry.unregister.
    rewrite Hk, Hks, lookup_delete_eq. by destruct (inherited k).
Qed.

Lemma connection_is_routable_at_once_witness :
  let a := Str "5f1d7f3e9c2a4b0012345678" in
  let b := Str "5f1d7f3e9c2a4b0012345699" in
  let st := (handle Throw boot (Connection (mkSocket "s1" b))).1 in
  (run Throw st [Connection (mkSocket "s2" b); CallUser a b (Str "sdp")]).2
  = [Emit "s2" "incoming-call" (Obj [("from", a); ("offer", Str "sdp")])].
Proof.
  intros a b st.
  apply (connection_is_routable_at_once Throw st (mkSocket "s2" b)
           a b (Str "sdp") "5f1d7f3e9c2a4b0012345699").
  - reflexivity.
  - unfold valid_socket. simpl. discriminate.
  - reflexivity.
  - discriminate.
  - reflexivity.
Defined.

(** The receiver of a chat message is looked up when the save settles, not
    when the message is sent. For a receiver that the store accepts (one
    that casts to an ObjectId): a receiver who connects between the two
    gets the message; a receiver who was connected when it was sent and
    disconnects before the save settles does not, although the message is
    stored. *)
Theorem forward_uses_registry_at_settle_time mode (st : Server) (s : Socket)
    (from to text : jsval) (now : nat) :
  alive st = true → valid_socket s →
  casts_to_ObjectId to = true →
  property_key to = property_key (query_userId s) →
  let doc := sendmessage_document from to text now in
  let i := length (awaiting st) in
  (run mode st [SendMessage from to text now; Connection s;
                SaveSettled i true]).2
    = [Save doc;
       Emit (id s) "receivemessage" (Obj [("sender", from); ("text", text)])]
  ∧ (run mode st [SendMessage from to text now; Disconnect s;
                   SaveSettled i true]).2
    = [Save doc]
  ∧ messages (run mode st [SendMessage from to text now; Disconnect s;
                           SaveSettled i true]).1
    = messages st ++ [doc].
Proof.
  intros Halive Hvalid Hcast Hkey doc i.
  destruct (castable_key to Hcast) as (k & Hk & Hi & Hne).
  assert (property_key (query_userId s) = Some k) as Hks by congruence.
  rewrite !run_cons, !handle_sendmessage by done. cbn [fst snd run].
  rewrite (handle_connection mode _ s k), (handle_disconnect mode _ s k)
    by done.
  cbn [fst snd]. unfold with_users. cbn [onlineUsers awaiting messages alive].
  subst doc i.
  destruct (handle_settle_last mode st (sendmessage_document from to text now)
              (on_connection (onlineUsers st) s) Halive) as [-> _].
  destruct (handle_settle_last mode st (sendmessage_document from to text now)
              (on_disconnect (onlineUsers st) s) Halive) as [-> ->].
  rewrite !app_nil_r. unfold sendmessage_resume. simpl.
  split; [|split; [|done]].
  - f_equal. apply emit_if_online_hit; [|done].
    by eapply lookup_register_key.
  - f_equal. apply emit_if_online_miss; [by rewrite Hk|].
    apply (lookup_ordinary_miss _ _ k); [done| |done].
    unfold on_disconnect, Registry.unregister. rewrite Hks.
    apply lookup_delete_eq.
Qed.

Lemma forward_uses_registry_at_settle_time_witness :
  let a := Str "5f1d7f3e9c2a4b0012345678" in
  let b := Str "5f1d7f3e9c2a4b0012345699" in
  let st := (handle Warn boot (Connection (mkSocket "s2" b))).1 in
  (run Warn st [SendMessage a b (Str "hi") 9; Disconnect (mkSocket "s2" b);
                SaveSettled 0 true]).2
  = [Save (sendmessage_document a b (Str "hi") 9)].
Proof.
  intros a b st.
  apply (forward_uses_registry_at_settle_time Warn st (mkSocket "s2" b)
           a b (Str "hi") 9).
  - reflexivity.
  - unfold valid_socket. simpl. discriminate.
  - vm_compute. reflexivity.
  - reflexivity.
Defined.

(* --------------------------------------------------------------------- *)
(*  The HTTP API: accounts                                                *)
(* --------------------------------------------------------------------- *)

Lemma findOne_number_new (users : list User) (u : User) :
  findOne_number users (Schema.number u) = None →
  findOne_number (users ++ [u]) (Schema.number u) = Some (length users, u).
Proof.
  intros Hfree. unfold findOne_number in *.
  rewrite list_find_app_r by done. simpl.
  by rewrite decide_True.
Qed.

Lemma findOne_number_None (users : list User) (n : string) :
  findOne_number users n = None → n ∉ Schema.number <$> users.
Proof.
  unfold findOne_number. rewrite list_find_None, Forall_forall.
  intros Hnone (u & -> & Hin)%list_elem_of_fmap. by apply (Hnone u).
Qed.

(** An account that signup creates can log in: when the number is not
    empty and not taken, signup replies 200 with the id of the new
    document, and a login with the same number and password - refused
    before - then replies 200 with that same id. bcrypt is taken to accept
    a password against its own hash. *)
Theorem signup_then_login (bcrypt_hash : string → nat → string → string)
    (bcrypt_compare : string → string → bool)
    (users : list User) (number password : string) (name : option string)
    (salt oid : string) :
  (∀ data rounds s, bcrypt_compare data (bcrypt_hash data rounds s) = true) →
  number ≠ "" →
  findOne_number users number = None →
  let created := signup bcrypt_hash users number password name salt oid in
  created.2 = Some (mkResponse 200 (userId_body oid))
  ∧ length created.1 = S (length users)
  ∧ login bcrypt_compare users number password
    = mkResponse 401 (error_body "Invalid credentials")
  ∧ login bcrypt_compare created.1 number password
    = mkResponse 200 (userId_body oid).
Proof.
  intros Hbcrypt Hnumber Hfree created.
  unfold created, signup, login. rewrite Hfree.
  destruct (String.eqb_spec number ""); [done|]. simpl.
  split; [done|]. split; [rewrite length_app; simpl; lia|]. split; [done|].
  set (u := {| Schema._id := oid; Schema.number := number;
               Schema.password := bcrypt_hash password 10 salt;
               Schema.name := name; Schema.avatar := None;
               Schema.contacts := []; Schema.__v := 0 |}).
  pose proof (findOne_number_new users u Hfree) as Hnew. simpl in Hnew.
  rewrite Hnew. simpl. by rewrite Hbcrypt.
Qed.

Lemma signup_then_login_witness :
  let hash := λ (data : string) (rounds : nat) (s : string),
                String.append "h:" data in
  let compare := λ (data h : string), String.eqb h (String.append "h:" data) in
  login compare (signup hash [] "555" "pw" (Some "Ann") "xy" "id1").1 "555" "pw"
  = mkResponse 200 (userId_body "id1").
Proof.
  intros hash compare.
  apply (signup_then_login hash compare [] "555" "pw" (Some "Ann") "xy" "id1").
  - intros data rounds s. unfold hash, compare. apply String.eqb_refl.
  - discriminate.
  - reflexivity.
Defined.

(** Signup never changes or removes an account: the collection it leaves
    begins with the collection it found and has at most one more document.
    If the number is taken, or empty, nothing is added. If the numbers
    were pairwise distinct, they still are. *)
Theorem signup_keeps_accounts (bcrypt_hash : string → nat → string → string)
    (users : list User) (number password : string) (name : option string)
    (salt oid : string) :
  let created := signup bcrypt_hash users number password name salt oid in
  users `prefix_of` created.1
  ∧ length created.1 ≤ S (length users)
  ∧ (number ∈ Schema.number <$> users →
     created = (users, Some (mkResponse 400 (error_body "User already exists!"))))
  ∧ (number = "" → created.1 = users)
  ∧ (NoDup (Schema.number <$> users) → NoDup (Schema.number <$> created.1)).
Proof.
  intros created. unfold created, signup.
  destruct (findOne_number users number) as [[i existing]|] eqn:Hfind.
  - simpl. repeat split; try done. lia.
  - apply findOne_number_None in Hfind.
    destruct (String.eqb_spec number "") as [->|Hne]; simpl.
    + repeat split; try done. lia.
    + split; [by apply prefix_app_r|].
      split; [rewrite length_app; simpl; lia|].
      split; [done|]. split; [done|].
      intros Hnodup. rewrite fmap_app. simpl.
      apply NoDup_app. split; [done|]. split; [|apply NoDup_singleton].
      intros n Hin ->%list_elem_of_singleton. done.
Qed.

Lemma signup_keeps_accounts_witness :
  let hash := λ (data : string) (rounds : nat) (s : string),
                String.append "h:" data in
  let users := (signup hash [] "555" "pw" (Some "Ann") "xy" "id1").1 in
  signup hash users "555" "other" None "zz" "id2"
  = (users, Some (mkResponse 400 (error_body "User already exists!"))).
Proof.
  intros hash users.
  destruct (signup_keeps_accounts hash users "555" "other" None "zz" "id2")
    as (_ & _ & Htaken & _).
  apply Htaken. vm_compute. apply list_elem_of_here.
Defined.

(** Login replies 200 with the id of the stored user exactly when a user
    has the given number and bcrypt accepts the given password against
    that user's stored hash; every other login - unknown number or wrong
    password alike - gets the same 401 "Invalid credentials". *)
Theorem login_replies (bcrypt_compare : string → string → bool)
    (users : list User) (number password : string) :
  (∀ i u, findOne_number users number = Some (i, u) →
     bcrypt_compare password (Schema.password u) = true →
     login bcrypt_compare users number password
     = mkResponse 200 (userId_body (_id u)))
  ∧ (∀ i u, findOne_number users number = Some (i, u) →
     bcrypt_compare password (Schema.password u) = false →
     login bcrypt_compare users number password
     = mkResponse 401 (error_body "Invalid credentials"))
  ∧ (number ∉ Schema.number <$> users →
     login bcrypt_compare users number password
     = mkResponse 401 (error_body "Invalid credentials"))
  ∧ (status (login bcrypt_compare users number password) = 200 →
     ∃ u, u ∈ users ∧ Schema.number u = number
          ∧ bcrypt_compare password (Schema.password u) = true
          ∧ body (login bcrypt_compare users number password)
            = userId_body (_id u)).
Proof.
  unfold login. split; [|split; [|split]].
  - intros i u -> Hmatch. simpl. by rewrite Hmatch.
  - intros i u -> Hmatch. simpl. by rewrite Hmatch.
  - intros Hnotin.
    destruct (findOne_number users number) as [[i u]|] eqn:Hfind; [|done].
    unfold findOne_number in Hfind.
    apply list_find_Some in Hfind as (Hu & Hnum & _).
    destruct Hnotin. apply list_elem_of_fmap. exists u.
    split; [done | by eapply list_elem_of_lookup_2].
  - destruct (findOne_number users number) as [[i u]|] eqn:Hfind; [|done].
    unfold findOne_number in Hfind.
    apply list_find_Some in Hfind as (Hu & Hnum & _).
    destruct (bcrypt_compare password (Schema.password u)) eqn:Hmatch;
      simpl; [|done].
    intros _. exists u. split; [by eapply list_elem_of_lookup_2 | done].
Qed.

Lemma login_replies_witness :
  let compare := λ (data h : string), String.eqb h (String.append "h:" data) in
  let users := [mkUser "5f1d7f3e9c2a4b0012345678" "555" "h:pw" None None [] 0;
                mkUser "5f1d7f3e9c2a4b0012345699" "666" "h:pw2" None None [] 0] in
  login compare users "666" "pw2"
    = mkResponse 200 (userId_body "5f1d7f3e9c2a4b0012345699")
  ∧ login compare users "666" "pw"
    = mkResponse 401 (error_body "Invalid credentials")
  ∧ login compare users "777" "pw"
    = mkResponse 401 (error_body "Invalid credentials").
Proof.
  intros compare users.
  destruct (login_replies compare users "666" "pw2") as (Hok & _).
  destruct (login_replies compare users "666" "pw") as (_ & Hbad & _).
  destruct (login_replies compare users "777" "pw") as (_ & _ & Hnone & _).
  split; [|split].
  - apply (Hok 1 (mkUser "5f1d7f3e9c2a4b0012345699" "666" "h:pw2" None None [] 0));
      reflexivity.
  - apply (Hbad 1 (mkUser "5f1d7f3e9c2a4b0012345699" "666" "h:pw2" None None [] 0));
      reflexivity.
  - apply Hnone. simpl. intros Hin.
    repeat (apply elem_of_cons in Hin as [Hin | Hin]; [discriminate|]).
    by apply not_elem_of_nil in Hin.
Defined.

(* --------------------------------------------------------------------- *)
(*  The HTTP API: contacts                                                *)
(* --------------------------------------------------------------------- *)

Lemma findById_spec (users : list User) (x : string) (i : nat) (u : User) :
  findById users x = Some (i, u) → users !! i = Some u ∧ _id u = oid_canon x.
Proof.
  unfold findById. intros (Hu & Hid & _)%list_find_Some. done.
Qed.

Lemma findById_insert (users : list User) (i : nat) (u u' : User) (x : string) :
  findById users x = Some (i, u) → _id u' = _id u →
  findById (<[i := u']> users) x = Some (i, u').
Proof.
  unfold findById. rewrite !list_find_Some. intros (Hu & Hid & Hfirst) Hsame.
  split; [apply list_lookup_insert_eq; by eapply lookup_lt_Some|].
  split; [congruence|]. intros j v Hv Hlt.
  rewrite list_lookup_insert_ne in Hv by lia. by eapply Hfirst.
Qed.

Lemma findById_insert_is_Some (users : list User) (i : nat) (u u' : User)
    (x : string) :
  users !! i = Some u → _id u' = _id u →
  is_Some (findById users x) → is_Some (findById (<[i := u']> users) x).
Proof.
  intros Hu Hid [[j v] Hfind]. unfold findById in *.
  apply list_find_Some in Hfind as (Hv & Hk & _).
  destruct (decide (j = i)) as [->|Hne].
  - apply (list_find_elem_of _ _ u').
    + apply list_elem_of_insert. by eapply lookup_lt_Some.
    + simpl. congruence.
  - apply (list_find_elem_of _ _ v); [|done].
    apply (list_elem_of_lookup_2 _ j). by rewrite list_lookup_insert_ne.
Qed.

Lemma elem_of_insert_inv (users : list User) (i : nat) (u' v : User) :
  v ∈ <[i := u']> users → v = u' ∨ v ∈ users.
Proof.
  intros (j & Hj)%list_elem_of_lookup_1.
  apply list_lookup_insert_Some in Hj as [(_ & -> & _) | (_ & Hj)];
    [by left | right; by eapply list_elem_of_lookup_2].
Qed.

Lemma filter_out_absent (cs : list string) (c : string) :
  c ∉ cs → filter (λ x, x ≠ c) cs = cs.
Proof.
  induction cs as [|c' cs IH]; [done|].
  intros [Hne Hnotin]%not_elem_of_cons.
  rewrite filter_cons_True by (simpl; congruence). by rewrite IH.
Qed.

Lemma pull_push_contact (u : User) (c : string) :
  oid_canon c ∉ contacts u →
  pull_contact (push_contact u c) c
  = {| _id := _id u; number := number u; password := password u;
       name := name u; avatar := avatar u; contacts := contacts u;
       __v := S (__v u) |}.
Proof.
  intros Hnotin. unfold pull_contact, push_contact. simpl. f_equal.
  rewrite filter_app, filter_cons_False by (simpl; auto).
  rewrite filter_nil, app_nil_r. by apply filter_out_absent.
Qed.

Lemma pull_pull_contact (u : User) (c : string) :
  pull_contact (pull_contact u c) c = pull_contact u c.
Proof.
  unfold pull_contact. simpl. f_equal.
  rewrite list_filter_filter. apply list_filter_iff. intros x. tauto.
Qed.




(** Removing a contact always replies 200 (for ids that cast), also when
    the user does not exist or never had the contact. If no stored user
    has the id, the collection is unchanged; for a stored user the contact
    is gone from the list and every other contact stays; repeating the
    request changes nothing more. Ids are compared as ObjectIds. *)
Theorem contacts_remove_replies_success (is_object_id : string → bool)
    (users : list User) (userId contactId : string) :
  is_object_id userId = true → is_object_id contactId = true →
  let removed := contacts_remove is_object_id users userId contactId in
  removed.2 = Some (mkResponse 200 success_body)
  ∧ ((∀ v, v ∈ users → _id v ≠ oid_canon userId) → removed.1 = users)
  ∧ (∀ i user, findById users userId = Some (i, user) →
       ∃ user', removed.1 !! i = Some user'
                ∧ _id user' = oid_canon userId
                ∧ (oid_canon contactId ∉ contacts user')
                ∧ (∀ c, c ≠ oid_canon contactId →
                        (c ∈ contacts user' ↔ c ∈ contacts user)))
  ∧ contacts_remove is_object_id removed.1 userId contactId = removed.
Proof.
  intros Huid Hcid removed. unfold removed, contacts_remove.
  rewrite Huid, Hcid. simpl.
  destruct (findById users userId) as [[i user]|] eqn:Huser; simpl.
  - destruct (findById_spec users userId i user Huser) as [Hi Hid].
    split; [done|]. split; [|split].
    + intros Hnone. destruct (Hnone user); [|done].
      by eapply list_elem_of_lookup_2.
    + intros ? ? [= <- <-]. exists (pull_contact user contactId).
      split; [apply list_lookup_insert_eq; by eapply lookup_lt_Some|].
      split; [done|]. simpl. split.
      * rewrite list_elem_of_filter. tauto.
      * intros c Hne. rewrite list_elem_of_filter. tauto.
    + rewrite (findById_insert users i user (pull_contact user contactId)
                 userId Huser eq_refl).
      by rewrite list_insert_insert_eq, pull_pull_contact.
  - rewrite Huser. repeat split; done.
Qed.

Lemma contacts_remove_replies_success_witness :
  let ok := λ _ : string, true in
  let users := [mkUser "5f1d7f3e9c2a4b00123456ab" "555" "h1" None None
                  ["5f1d7f3e9c2a4b00123456cd"] 0] in
  ∃ user', (contacts_remove ok users "5F1D7F3E9C2A4B00123456AB"
              "5f1d7f3e9c2a4b00123456CD").1 !! 0 = Some user'
           ∧ "5f1d7f3e9c2a4b00123456cd" ∉ contacts user'.
Proof.
  intros ok users.
  destruct (contacts_remove_replies_success ok users
              "5F1D7F3E9C2A4B00123456AB" "5f1d7f3e9c2a4b00123456CD"
              eq_refl eq_refl) as (_ & _ & Hfound & _).
  destruct (Hfound 0 (mkUser "5f1d7f3e9c2a4b00123456ab" "555" "h1" None None
                        ["5f1d7f3e9c2a4b00123456cd"] 0) eq_refl)
    as (user' & Hu & _ & Hgone & _).
  exists user'. split; [exact Hu | exact Hgone].
Defined.

(** Adding a contact the user did not have and removing it again restores
    every document and every contact list; the only trace is the version
    key of the user's document, which the save of the push incremented. *)
Theorem contacts_add_remove_round_trip (is_object_id : string → bool)
    (users : list User) (userId contactId : string) (i : nat) (user : User) :
  is_object_id userId = true → is_object_id contactId = true →
  findById users userId = Some (i, user) →
  is_Some (findById users contactId) →
  oid_canon contactId ∉ contacts user →
  contacts_remove is_object_id
    (contacts_add is_object_id users userId contactId).1 userId contactId
  = (<[i := {| _id := _id user; number := number user;
               password := password user; name := name user;
               avatar := avatar user; contacts := contacts user;
               __v := S (__v user) |}]> users,
     Some (mkResponse 200 success_body)).
Proof.
  intros Huid Hcid Huser [contact Hcontact] Hnotin.
  unfold contacts_add, contacts_remove.
  rewrite Huid, Hcid, Huser, Hcontact. simpl.
  rewrite bool_decide_eq_false_2 by done. simpl.
  rewrite (findById_insert users i user (push_contact user contactId)
             userId Huser eq_refl).
  by rewrite list_insert_insert_eq, pull_push_contact.
Qed.

Lemma contacts_add_remove_round_trip_witness :
  let ok := λ _ : string, true in
  let a := "5f1d7f3e9c2a4b00123456ab" in
  let b := "5f1d7f3e9c2a4b00123456cd" in
  let c := "5f1d7f3e9c2a4b00123456ef" in
  let users := [mkUser a "555" "h1" None None [c] 3;
                mkUser b "666" "h2" None None [] 0;
                mkUser c "777" "h3" None None [] 0] in
  contacts_remove ok (contacts_add ok users a b).1 a b
  = ([mkUser a "555" "h1" None None [c] 4;
      mkUser b "666" "h2" None None [] 0;
      mkUser c "777" "h3" None None [] 0],
     Some (mkResponse 200 success_body)).
Proof.
  intros ok a b c users.
  apply (contacts_add_remove_round_trip ok users a b 0
           (mkUser a "555" "h1" None None [c] 3)).
  - reflexivity.
  - reflexivity.
  - reflexivity.
  - vm_compute. by eexists.
  - vm_compute. intros Hin. apply list_elem_of_singleton in Hin. discriminate.
Defined.

(* --------------------------------------------------------------------- *)
(*  The HTTP API: history                                                 *)
(* --------------------------------------------------------------------- *)

#[local] Instance createdAt_le_total : Total createdAt_le.
Proof. intros a b. unfold createdAt_le. lia. Qed.

Lemma lower_hex_idem (c : Ascii.ascii) : lower_hex (lower_hex c) = lower_hex c.
Proof. destruct c as [[] [] [] [] [] [] [] []]; reflexivity. Qed.

Lemma oid_canon_idem (s : string) : oid_canon (oid_canon s) = oid_canon s.
Proof.
  induction s as [|c s IH]; [done|]. simpl. by rewrite lower_hex_idem, IH.
Qed.

Lemma findById_canon (users : list User) (x : string) :
  findById users (oid_canon x) = findById users x.
Proof. unfold findById. by rewrite oid_canon_idem. Qed.

Lemma is_id_spec (v : jsval) (i : string) :
  is_id v i = true ↔ ∃ s, v = Str s ∧ oid_canon s = oid_canon i.
Proof.
  destruct v as [|s|fields]; simpl.
  - split; [discriminate | by intros (? & [=] & _)].
  - rewrite String.eqb_eq. split; [by exists s | by intros (? & [= <-] & ?)].
  - split; [discriminate | by intros (? & [=] & _)].
Qed.

Lemma between_spec (userId contactId : string) (m : Message) :
  between userId contactId m = true
  ↔ ∃ s r, sender m = Str s ∧ receiver m = Str r
           ∧ ((oid_canon s = oid_canon userId
               ∧ oid_canon r = oid_canon contactId)
              ∨ (oid_canon s = oid_canon contactId
                 ∧ oid_canon r = oid_canon userId)).
Proof.
  unfold between. rewrite orb_true_iff, !andb_true_iff, !is_id_spec. split.
  - intros [[(s & Hs & ?) (r & Hr & ?)] | [(s & Hs & ?) (r & Hr & ?)]];
      exists s, r; auto.
  - intros (s & r & Hs & Hr & [[? ?] | [? ?]]); [left | right];
      split; eauto.
Qed.

Lemma between_sym (userId contactId : string) (m : Message) :
  between userId contactId m = between contactId userId m.
Proof. unfold between. apply orb_comm. Qed.

(** Both parties of a conversation get the same history: the reply to
    /messages/:userId/:contactId is the reply to the same request with the
    two ids exchanged. *)
Theorem get_messages_symmetric (is_object_id : string → bool)
    (collection : list Message) (userId contactId : string) :
  get_messages is_object_id collection userId contactId
  = get_messages is_object_id collection contactId userId.
Proof.
  unfold get_messages. rewrite (andb_comm (is_object_id contactId)).
  destruct (is_object_id userId && is_object_id contactId); simpl; [|done].
  do 4 f_equal. apply list_filter_iff. intros m. by rewrite between_sym.
Qed.

(** The history of two users is exactly their conversation: for ids that
    cast, the reply lists, in ascending order of createdAt, the stored
    messages sent by one of the two to the other - each as often as it is
    stored - and no message that involves anyone else. Senders and
    receivers are compared as ObjectIds, whatever the case of the digits
    in the request. *)
Theorem get_messages_exact (is_object_id : string → bool)
    (collection : list Message) (userId contactId : string) :
  is_object_id userId = true → is_object_id contactId = true →
  ∃ docs,
    get_messages is_object_id collection userId contactId
      = Some (mkResponse 200 (messages_body docs))
    ∧ Sorted createdAt_le docs
    ∧ docs ≡ₚ filter (λ m, between userId contactId m = true) collection
    ∧ ∀ m, m ∈ docs ↔
           m ∈ collection
           ∧ ∃ s r, sender m = Str s ∧ receiver m = Str r
                    ∧ ((oid_canon s = oid_canon userId
                        ∧ oid_canon r = oid_canon contactId)
                       ∨ (oid_canon s = oid_canon contactId
                          ∧ oid_canon r = oid_canon userId)).
Proof.
  unfold get_messages. intros -> ->. simpl. eexists. split; [reflexivity|].
  unfold sort_createdAt.
  split; [apply Sorted_merge_sort, _|].
  split; [apply merge_sort_Permutation|].
  intros m. rewrite merge_sort_Permutation, list_elem_of_filter, between_spec.
  tauto.
Qed.

Lemma get_messages_exact_witness :
  let ok := λ _ : string, true in
  let a := "5f1d7f3e9c2a4b00123456ab" in
  let b := "5f1d7f3e9c2a4b00123456cd" in
  let c := "5f1d7f3e9c2a4b00123456ef" in
  let collection := [mkMessage (Str a) (Str b) (Str "one") 5;
                     mkMessage (Str b) (Str a) (Str "two") 3;
                     mkMessage (Str b) (Str c) (Str "three") 1] in
  ∃ docs, get_messages ok collection "5F1D7F3E9C2A4B00123456AB" b
          = Some (mkResponse 200 (messages_body docs))
          ∧ mkMessage (Str a) (Str b) (Str "one") 5 ∈ docs
          ∧ Sorted createdAt_le docs.
Proof.
  intros ok a b c collection.
  destruct (get_messages_exact ok collection "5F1D7F3E9C2A4B00123456AB" b
              eq_refl eq_refl) as (docs & Hdocs & Hsorted & _ & Hmem).
  exists docs. split; [exact Hdocs|]. split; [|exact Hsorted].
  apply Hmem. split; [apply list_elem_of_here|].
  exists a, b. split; [reflexivity|]. split; [reflexivity|].
  left. split; reflexivity.
Defined.

(** A chat message whose save succeeded is in the history of its two
    users, whether or not it was forwarded: after the sendmessage and the
    settling of its save, the reply to /messages/:receiver/:sender lists
    its document. *)
Theorem sent_message_is_in_history mode (is_object_id : string → bool)
    (st : Server) (userId contactId : string) (text : jsval) (now : nat) :
  alive st = true →
  is_object_id userId = true → is_object_id contactId = true →
  let doc := sendmessage_document (Str userId) (Str contactId) text now in
  let final :=
    (run mode st [SendMessage (Str userId) (Str contactId) text now;
                  SaveSettled (length (awaiting st)) true]).1 in
  messages final = messages st ++ [doc]
  ∧ ∃ docs, get_messages is_object_id (messages final) contactId userId
            = Some (mkResponse 200 (messages_body docs))
            ∧ doc ∈ docs.
Proof.
  intros Halive Huid Hcid doc final.
  assert (messages final = messages st ++ [doc]) as Hstored.
  { unfold final, doc. rewrite !run_cons, handle_sendmessage by done.
    cbn [fst snd run].
    by destruct (handle_settle_last mode st
                   (sendmessage_document (Str userId) (Str contactId) text now)
                   (onlineUsers st) Halive) as [_ ->]. }
  split; [exact Hstored|].
  destruct (get_messages_exact is_object_id (messages final) contactId userId
              Hcid Huid) as (docs & Hdocs & _ & _ & Hmem).
  exists docs. split; [exact Hdocs|].
  apply Hmem. split.
  - rewrite Hstored. apply elem_of_app. right. apply list_elem_of_here.
  - exists userId, contactId. split; [done|]. split; [done|]. by right.
Qed.

Lemma sent_message_is_in_history_witness :
  let ok := λ _ : string, true in
  let final := (run Warn boot [SendMessage (Str "a") (Str "b") (Str "hi") 2;
                               SaveSettled 0 true]).1 in
  ∃ docs, get_messages ok (messages final) "b" "a"
          = Some (mkResponse 200 (messages_body docs))
          ∧ sendmessage_document (Str "a") (Str "b") (Str "hi") 2 ∈ docs.
Proof.
  intros ok final.
  destruct (sent_message_is_in_history Warn ok boot "a" "b" (Str "hi") 2
              eq_refl eq_refl eq_refl) as [_ Hhistory].
  exact Hhistory.
Defined.

(* --------------------------------------------------------------------- *)
(*  The HTTP API: contact lists stay valid, and the chat list             *)
(* --------------------------------------------------------------------- *)

Lemma findById_app_is_Some (users more : list User) (c : string) :
  is_Some (findById users c) → is_Some (findById (users ++ more) c).
Proof.
  intros [[j v] Hfind]. exists (j, v). unfold findById in *.
  by apply list_find_app_l.
Qed.

Lemma contacts_exist_insert (users : list User) (i : nat) (user u' : User) :
  users !! i = Some user → _id u' = _id user →
  (∀ c, c ∈ contacts u' → is_Some (findById users c)) →
  contacts_exist users → contacts_exist (<[i := u']> users).
Proof.
  intros Hi Hid Hnew Hexist v c Hv Hc.
  apply (findById_insert_is_Some users i user u' c Hi Hid).
  apply elem_of_insert_inv in Hv as [-> | Hv]; [by apply Hnew|].
  by eapply Hexist.
Qed.

(** Contact lists never dangle: if every id in every contact list is the
    id of a stored user, this is still so after a signup, after
    /contacts/add and after /contacts/remove, whatever their arguments. The
    empty collection has the property. *)
Theorem contacts_stay_valid (bcrypt_hash : string → nat → string → string)
    (is_object_id : string → bool) (users : list User)
    (number password : string) (name : option string) (salt oid : string)
    (userId contactId : string) :
  contacts_exist users →
  contacts_exist []
  ∧ contacts_exist (signup bcrypt_hash users number password name salt oid).1
  ∧ contacts_exist (contacts_add is_object_id users userId contactId).1
  ∧ contacts_exist (contacts_remove is_object_id users userId contactId).1.
Proof.
  intros Hexist. split; [|split; [|split]].
  - intros u c Hu. by apply not_elem_of_nil in Hu.
  - unfold signup. destruct (findOne_number users number); [done|].
    destruct (String.eqb number ""); [done|]. simpl.
    intros u c [Hu | Hu]%elem_of_app Hc.
    + apply findById_app_is_Some. by eapply Hexist.
    + apply list_elem_of_singleton in Hu. subst u. simpl in Hc.
      by apply not_elem_of_nil in Hc.
  - unfold contacts_add.
    destruct (is_object_id userId); simpl; [|done].
    destruct (is_object_id contactId); simpl; [|done].
    destruct (findById users userId) as [[i user]|] eqn:Huser; [|done].
    destruct (findById users contactId) as [contact|] eqn:Hcontact; [|done].
    case_bool_decide; simpl; [done|].
    unfold findById in Huser. apply list_find_Some in Huser as (Hi & _ & _).
    apply (contacts_exist_insert users i user); [done..| |done].
    simpl. intros c [Hc | Hc]%elem_of_app.
    + eapply Hexist; [|done]. by eapply list_elem_of_lookup_2.
    + apply list_elem_of_singleton in Hc. subst c.
      by rewrite findById_canon, Hcontact.
  - unfold contacts_remove.
    destruct (is_object_id userId && is_object_id contactId); simpl; [|done].
    destruct (findById users userId) as [[i user]|] eqn:Huser; [|done]. simpl.
    unfold findById in Huser. apply list_find_Some in Huser as (Hi & _ & _).
    apply (contacts_exist_insert users i user); [done..| |done].
    simpl. intros c [_ Hc]%list_elem_of_filter.
    eapply Hexist; [|done]. by eapply list_elem_of_lookup_2.
Qed.

Lemma contacts_stay_valid_witness :
  let hash := λ (data : string) (rounds : nat) (s : string),
                String.append "h:" data in
  let ok := λ _ : string, true in
  let a := "5f1d7f3e9c2a4b00123456ab" in
  let b := "5f1d7f3e9c2a4b00123456cd" in
  let users := [mkUser a "555" "h1" None None [b] 1;
                mkUser b "666" "h2" None None [] 0] in
  contacts_exist (contacts_add ok users "5F1D7F3E9C2A4B00123456CD" a).1
  ∧ contacts_exist (contacts_remove ok users a b).1.
Proof.
  intros hash ok a b users.
  assert (contacts_exist users) as Hexist.
  { intros u c Hu Hc. unfold users in Hu.
    apply elem_of_cons in Hu as [-> | Hu].
    - simpl in Hc. apply list_elem_of_singleton in Hc. subst c.
      vm_compute. by eexists.
    - apply list_elem_of_singleton in Hu. subst u. simpl in Hc.
      by apply not_elem_of_nil in Hc. }
  destruct (contacts_stay_valid hash ok users "777" "pw" None "xy"
              "5f1d7f3e9c2a4b00123456ef" "5F1D7F3E9C2A4B00123456CD" a Hexist)
    as (_ & _ & Hadd & _).
  destruct (contacts_stay_valid hash ok users "777" "pw" None "xy"
              "5f1d7f3e9c2a4b00123456ef" a b Hexist)
    as (_ & _ & _ & Hremove).
  split; [exact Hadd | exact Hremove].
Defined.

#[local] Instance createdAt_ge_total : Total createdAt_ge.
Proof. intros a b. unfold createdAt_ge. lia. Qed.

#[local] Instance createdAt_ge_trans : Transitive createdAt_ge.
Proof. intros a b c. unfold createdAt_ge. lia. Qed.

Lemma last_message_spec (collection : list Message) (userId contactId : string) :
  let conversation :=
    filter (λ m, between userId contactId m = true) collection in
  match last_message collection userId contactId with
  | None => conversation = []
  | Some m => m ∈ conversation
              ∧ ∀ m', m' ∈ conversation → createdAt m' ≤ createdAt m
  end.
Proof.
  intros conversation. unfold last_message. fold conversation.
  pose proof (merge_sort_Permutation createdAt_ge conversation) as Hperm.
  pose proof (StronglySorted_merge_sort createdAt_ge conversation) as Hsorted.
  destruct (merge_sort createdAt_ge conversation) as [|m rest]; simpl.
  - by apply Permutation_nil.
  - apply StronglySorted_cons in Hsorted as [Hall _].
    split; [rewrite <- Hperm; apply list_elem_of_here|].
    intros m' Hm'. rewrite <- Hperm in Hm'.
    apply elem_of_cons in Hm' as [-> | Hm']; [done|].
    rewrite Forall_forall in Hall. by apply Hall.
Qed.

Lemma populate_contacts_ids (users : list User) (ids : list string) :
  (∀ c, c ∈ ids → is_Some (findById users c)) →
  _id <$> populate_contacts users ids = oid_canon <$> ids.
Proof.
  induction ids as [|c ids IH]; intros Hall; [done|].
  unfold populate_contacts in *. simpl.
  destruct (Hall c) as [[j v] Hfind]; [apply list_elem_of_here|].
  rewrite Hfind. simpl. unfold findById in Hfind.
  apply list_find_Some in Hfind as (_ & -> & _).
  f_equal. apply IH. intros c' Hc'. apply Hall. by apply list_elem_of_further.
Qed.

(** The chat list of a user has one entry per contact, in the order of
    the contact list, and each entry shows the latest message of that
    conversation: no time and no text if the two never exchanged a
    message, otherwise the greatest createdAt among their messages. An
    unknown user gets 404. *)
Theorem chatlist_shows_latest_message (is_object_id : string → bool)
    (users : list User) (collection : list Message) (userId : string) :
  is_object_id userId = true → contacts_exist users →
  (findById users userId = None →
   chatlist is_object_id users collection userId
   = Some (mkResponse 404 (error_body "User not found")))
  ∧ (∀ i user, findById users userId = Some (i, user) →
     ∃ entries,
       chatlist is_object_id users collection userId
         = Some (mkResponse 200 (chatlist_body entries))
       ∧ ChatList.contactId <$> entries = oid_canon <$> contacts user
       ∧ ∀ e, e ∈ entries →
           let conversation :=
             filter (λ m, between userId (ChatList.contactId e) m = true)
               collection in
           (conversation = [] →
              ChatList.lastMessageAt e = None ∧ ChatList.lastMessage e = None)
           ∧ (conversation ≠ [] → is_Some (ChatList.lastMessageAt e))
           ∧ (∀ t, ChatList.lastMessageAt e = Some t →
                (∃ m, m ∈ conversation ∧ createdAt m = t)
                ∧ ∀ m, m ∈ conversation → createdAt m ≤ t)).
Proof.
  intros Huid Hexist. unfold chatlist. rewrite Huid. simpl.
  split; [by intros ->|].
  intros i user Huser. rewrite Huser. eexists. split; [reflexivity|].
  assert (user ∈ users) as Hin.
  { unfold findById in Huser. apply list_find_Some in Huser as (Hi & _).
    by eapply list_elem_of_lookup_2. }
  split.
  - rewrite <- list_fmap_compose.
    apply populate_contacts_ids. intros c Hc. by eapply Hexist.
  - intros e (contact & -> & _)%list_elem_of_fmap. simpl.
    pose proof (last_message_spec collection userId (_id contact)) as Hlast.
    simpl in Hlast.
    destruct (last_message collection userId (_id contact)) as [m|]; simpl.
    + destruct Hlast as [Hm Hmax]. split; [|split].
      * intros Hnil. rewrite Hnil in Hm. by apply not_elem_of_nil in Hm.
      * by eexists.
      * intros t [= <-]. split; [by exists m | done].
    + split; [done|]. split; [done|]. intros t [=].
Qed.

Lemma chatlist_shows_latest_message_witness :
  let ok := λ _ : string, true in
  let a := "5f1d7f3e9c2a4b00123456ab" in
  let b := "5f1d7f3e9c2a4b00123456cd" in
  let users := [mkUser a "555" "h1" None None [b] 1;
                mkUser b "666" "h2" (Some "Bob") None [] 0] in
  let collection := [mkMessage (Str a) (Str b) (Str "one") 5;
                     mkMessage (Str b) (Str a) (Str "two") 8] in
  ∃ entries, chatlist ok users collection "5F1D7F3E9C2A4B00123456AB"
             = Some (mkResponse 200 (chatlist_body entries))
             ∧ ChatList.contactId <$> entries = [b].
Proof.
  intros ok a b users collection.
  assert (contacts_exist users) as Hexist.
  { intros u c Hu Hc. unfold users in Hu.
    apply elem_of_cons in Hu as [-> | Hu].
    - simpl in Hc. apply list_elem_of_singleton in Hc. subst c.
      vm_compute. by eexists.
    - apply list_elem_of_singleton in Hu. subst u. simpl in Hc.
      by apply not_elem_of_nil in Hc. }
  destruct (chatlist_shows_latest_message ok users collection
              "5F1D7F3E9C2A4B00123456AB" eq_refl Hexist) as [_ Hfound].
  destruct (Hfound 0 (mkUser a "555" "h1" None None [b] 1) eq_refl)
    as (entries & Hreply & Hids & _).
  exists entries. split; [exact Hreply | exact Hids].
Defined.
